(** * namecheap-dns: reconciliation of DNS host records

    A shallow embedding of [main.py]: records are Python dicts from
    attribute names to values, a record's identity is the tuple computed
    by [dict_hash], the two collections of a run are identity-keyed dicts
    (insertion ordered), and [do_import] / [do_export] run in a small
    monad that records the calls made to the provider and the lines
    printed, and propagates Python exceptions. *)

From stdpp Require Import gmap strings list fin_maps sorting pretty.
From Stdlib Require Import Ascii.

Local Open Scope Z_scope.

(** ** Python values and exceptions *)

(** Attribute values of a record.  The provider's XML attributes are
    always strings; a YAML document may also carry integers (an unquoted
    [TTL: 3600]).  Python strings are modelled by [string], read as
    sequences of code points below 256. *)
Inductive value :=
  | VStr (s : string)
  | VInt (z : Z).

Global Instance value_eq_dec : EqDecision value.
Proof. solve_decision. Defined.

(** A record (and every other string-keyed Python dict of the program:
    the configuration, the request data). *)
Abbreviation record := (gmap string value).

Inductive exn :=
  | KeyError (k : string)
  | TypeError
  | ProviderError.

Global Instance exn_eq_dec : EqDecision exn.
Proof. solve_decision. Defined.

Inductive result (A : Type) :=
  | Ok (a : A)
  | Raise (e : exn).
Arguments Ok {A} a.
Arguments Raise {A} e.

Global Instance result_eq_dec `{EqDecision A} : EqDecision (result A).
Proof. solve_decision. Defined.

Global Instance result_ret : MRet result := λ A a, Ok a.
Global Instance result_bind : MBind result := λ A B f m,
  match m with Ok a => f a | Raise e => Raise e end.

(** [d[k]] *)
Definition getitem (k : string) (d : record) : result value :=
  match d !! k with Some v => Ok v | None => Raise (KeyError k) end.

(** [d.pop(k)]: the value and the dict without the key. *)
Definition pop (k : string) (d : record) : result (value * record) :=
  v ← getitem k d; Ok (v, delete k d).

(** [d.pop(k, None)] used as a statement. *)
Definition pop_default (k : string) (d : record) : record := delete k d.

(** ** [json.dumps(d, sort_keys=True)] *)

Module Json.

Definition quote : ascii := "034"%char.
Definition backslash : ascii := "092"%char.

Definition hex_digit (n : N) : ascii :=
  match n with
  | 0 => "0" | 1 => "1" | 2 => "2" | 3 => "3" | 4 => "4" | 5 => "5"
  | 6 => "6" | 7 => "7" | 8 => "8" | 9 => "9" | 10 => "a" | 11 => "b"
  | 12 => "c" | 13 => "d" | 14 => "e" | _ => "f"
  end%char%N.

(** The replacement of one character by [json.encoder]'s
    [ESCAPE_ASCII] pass: the quote and the backslash are escaped by a
    backslash, five control characters have a short form, the
    printable range [' '..'~'] is kept, and every other code point [n]
    becomes [\u00xx]. *)
Definition escape_char (c : ascii) : list ascii :=
  if decide (c = quote) then [backslash; quote]
  else if decide (c = backslash) then [backslash; backslash]
  else if decide (c = "010"%char) then [backslash; "n"%char]
  else if decide (c = "013"%char) then [backslash; "r"%char]
  else if decide (c = "009"%char) then [backslash; "t"%char]
  else if decide (c = "012"%char) then [backslash; "f"%char]
  else if decide (c = "008"%char) then [backslash; "b"%char]
  else
    let n := N_of_ascii c in
    if ((32 <=? n) && (n <=? 126))%N then [c]
    else [backslash; "u"; "0"; "0";
          hex_digit (n `div` 16)%N; hex_digit (n `mod` 16)%N]%char.

Fixpoint escape (s : string) : list ascii :=
  match s with
  | EmptyString => []
  | String c s => escape_char c ++ escape s
  end.

Definition dump_string (s : string) : list ascii :=
  quote :: escape s ++ [quote].

(** An [int] is written by its decimal [repr]. *)
Definition dump_int (z : Z) : list ascii :=
  String.list_ascii_of_string (pretty z).

Definition dump_value (v : value) : list ascii :=
  match v with
  | VStr s => dump_string s
  | VInt z => dump_int z
  end.

Definition dump_item (kv : string * value) : list ascii :=
  dump_string kv.1 ++ [":"; " "]%char ++ dump_value kv.2.

(** Items separated by [", "]. *)
Fixpoint dump_items (kvs : list (string * value)) : list ascii :=
  match kvs with
  | [] => []
  | kv :: kvs =>
      dump_item kv ++
      match kvs with
      | [] => []
      | _ :: _ => [","; " "]%char ++ dump_items kvs
      end
  end.

(** [sort_keys=True]: the items are written in increasing key order. *)
Definition key_le (kv1 kv2 : string * value) : Prop :=
  String.le kv1.1 kv2.1.

Global Instance key_le_dec : RelDecision key_le.
Proof. intros ??; unfold key_le; apply _. Defined.

Definition sorted_items (d : record) : list (string * value) :=
  merge_sort key_le (map_to_list d).

Definition dumps (d : record) : string :=
  String.string_of_list_ascii
    ("{"%char :: dump_items (sorted_items d) ++ ["}"%char]).

(** A reader for one escaped character, the inverse of [escape_char];
    it refuses a bare quote, which ends a string. *)
Definition unhex (c : ascii) : option N :=
  let n := N_of_ascii c in
  if ((48 <=? n) && (n <=? 57))%N then Some (n - 48)%N
  else if ((97 <=? n) && (n <=? 102))%N then Some (n - 87)%N
  else None.

Definition unescape_char (l : list ascii) : option (ascii * list ascii) :=
  match l with
  | [] => None
  | c :: l' =>
      if decide (c = quote) then None
      else if decide (c = backslash) then
        match l' with
        | [] => None
        | e :: l'' =>
            if decide (e = quote) then Some (quote, l'')
            else if decide (e = backslash) then Some (backslash, l'')
            else if decide (e = "n"%char) then Some ("010"%char, l'')
            else if decide (e = "r"%char) then Some ("013"%char, l'')
            else if decide (e = "t"%char) then Some ("009"%char, l'')
            else if decide (e = "f"%char) then Some ("012"%char, l'')
            else if decide (e = "b"%char) then Some ("008"%char, l'')
            else
              match l'' with
              | _ :: _ :: h :: g :: rest =>
                  a ← unhex h; b ← unhex g;
                  Some (ascii_of_N (16 * a + b), rest)
              | _ => None
              end
        end
      else Some (c, l')
  end.

(** The characters of a decimal numeral. *)
Definition digit (c : ascii) : bool :=
  let n := N_of_ascii c in ((48 <=? n) && (n <=? 57))%N.
Definition numeric (c : ascii) : bool :=
  digit c || bool_decide (c = "-"%char).

End Json.

(** ** Record identity *)

(** The tuple [(type_, name, json)] returned by [dict_hash]. *)
Definition identity : Type := value * value * string.

Definition dict_hash (d : record) : result identity :=
  '(name, d) ← pop "HostName" d;
  '(type_, d) ← pop "RecordType" d;
  Ok (type_, name, Json.dumps d).

(** Python's [<] on the components of an identity: strings compare by
    code points, integers by value, and a string against an integer
    raises [TypeError]. *)
Definition value_lt (a b : value) : result bool :=
  match a, b with
  | VStr s, VStr t => Ok (String.ltb s t)
  | VInt x, VInt y => Ok (x <? y)
  | _, _ => Raise TypeError
  end.

(** Tuple comparison: the first components that differ decide. *)
Definition identity_lt (a b : identity) : result bool :=
  let '(t1, n1, j1) := a in
  let '(t2, n2, j2) := b in
  if decide (t1 = t2) then
    if decide (n1 = n2) then Ok (String.ltb j1 j2) else value_lt n1 n2
  else value_lt t1 t2.

(** ** [sorted(xs, key=f)]

    The keys are computed first, then the list is sorted stably with
    [<] on the keys.  A stable sort is determined by its order, so the
    insertion sort below returns what Python's sort returns. *)
Section sorted.
Context {A K : Type} (lt : K → K → result bool).

Fixpoint insert_sorted (x : K * A) (l : list (K * A)) : result (list (K * A)) :=
  match l with
  | [] => Ok [x]
  | y :: l' =>
      b ← lt y.1 x.1;
      if b : bool then l'' ← insert_sorted x l'; Ok (y :: l'')
      else Ok (x :: l)
  end.

Fixpoint sort_keyed (l : list (K * A)) : result (list (K * A)) :=
  match l with
  | [] => Ok []
  | x :: l => l' ← sort_keyed l; insert_sorted x l'
  end.

Fixpoint decorate (key : A → result K) (xs : list A) : result (list (K * A)) :=
  match xs with
  | [] => Ok []
  | x :: xs => k ← key x; l ← decorate key xs; Ok ((k, x) :: l)
  end.

Definition sorted (key : A → result K) (xs : list A) : result (list A) :=
  l ← decorate key xs;
  l' ← sort_keyed l;
  Ok (l'.*2).
End sorted.

(** ** Record collections: dicts keyed by identity

    A Python dict keeps its keys in insertion order, and assigning to a
    key that is present replaces the value where the key stands. *)
Abbreviation collection := (list (identity * record)).

Fixpoint setitem (k : identity) (v : record) (c : collection) : collection :=
  match c with
  | [] => [(k, v)]
  | (k', v') :: c' =>
      if decide (k = k') then (k', v) :: c' else (k', v') :: setitem k v c'
  end.

Definition keys (c : collection) : list identity := c.*1.
Definition values (c : collection) : list record := c.*2.

(** [k in c] *)
Definition contains (k : identity) (c : collection) : bool :=
  bool_decide (k ∈ keys c).

(** [c[k]] *)
Fixpoint lookup_item (k : identity) (c : collection) : option record :=
  match c with
  | [] => None
  | (k', v) :: c' => if decide (k = k') then Some v else lookup_item k c'
  end.

(** [{dict_hash(r): r for r in rs}], continued from [acc]. *)
Fixpoint collect (rs : list record) (acc : collection) : result collection :=
  match rs with
  | [] => Ok acc
  | r :: rs => k ← dict_hash r; collect rs (setitem k r acc)
  end.

(** ** Effects: calls to the provider, printed lines, the dumped document *)

Inductive message :=
  | Adding (r : record)
  | Removing (r : record).

Inductive event :=
  | Post (request : record)
  | Print (m : message)
  | Dump (doc : list record).

(** A computation yields the events it performed, in order, and its
    value or the exception that ended it. *)
Definition M (A : Type) : Type := list event * result A.

Global Instance M_ret : MRet M := λ A a, ([], Ok a).
Global Instance M_bind : MBind M := λ A B f m,
  match m.2 with
  | Ok a => (m.1 ++ (f a).1, (f a).2)
  | Raise e => (m.1, Raise e)
  end.

Definition emit (e : event) : M unit := ([e], Ok tt).
Definition lift {A} (r : result A) : M A := ([], r).

(** The attributes of one [host] element of the provider's response. *)
Abbreviation host := (gmap string string).

(** What the provider answers to a request: the [host] elements of its
    response, or a failure ([raise_for_status], or a response whose
    [Status] is not [OK]). *)
Abbreviation provider := (record → result (list host)).

Record args := {
  sld : string;
  tld : string;
  dryrun : bool;
  (** the document [yaml.safe_load] reads from [args.input_file] *)
  input_file : list record;
}.

Definition make_namecheap_request (net : provider) (config data : record)
    : M (list host) :=
  api_user ← lift (getitem "ApiUser" config);
  user_name ← lift (getitem "UserName" config);
  api_key ← lift (getitem "ApiKey" config);
  client_ip ← lift (getitem "ClientIP" config);
  let request :=
    <["ClientIP" := client_ip]> (<["ApiKey" := api_key]>
      (<["UserName" := user_name]> (<["ApiUser" := api_user]> data))) in
  emit (Post request);;
  lift (net request).

(** The body of the loop of [get_records]. *)
Definition clean_record (r : record) : result record :=
  let r := pop_default "AssociatedAppTitle" r in
  let r := pop_default "FriendlyName" r in
  let r := pop_default "HostId" r in
  '(name, r) ← pop "Name" r;
  let r := <["HostName" := name]> r in
  let r := pop_default "IsActive" r in
  let r := pop_default "IsDDNSEnabled" r in
  type_ ← getitem "Type" r;
  let r :=
    if bool_decide (type_ ≠ VStr "MX") then pop_default "MXPref" r
    else r in
  '(type_, r) ← pop "Type" r;
  let r := <["RecordType" := type_]> r in
  ttl ← getitem "TTL" r;
  if bool_decide (ttl = VStr "1800") then
    '(_, r) ← pop "TTL" r; Ok r
  else Ok r.

Fixpoint clean_records (records : list record) : result (list record) :=
  match records with
  | [] => Ok []
  | r :: rs => r' ← clean_record r; rs' ← clean_records rs; Ok (r' :: rs')
  end.

(** [dict(h.attrib)] *)
Definition dict_of_attrib (h : host) : record := VStr <$> h.

Definition get_records (net : provider) (config : record) (sld tld : string)
    : M (list record) :=
  hosts ← make_namecheap_request net config
    (<["TLD" := VStr tld]> (<["SLD" := VStr sld]>
      (<["Command" := VStr "namecheap.domains.dns.getHosts"]> ∅)));
  let records := dict_of_attrib <$> (hosts : list host) in
  lift (clean_records records).

Definition get_new (a : args) : result collection :=
  collect (input_file a) [].

Definition get_current (net : provider) (a : args) (config : record)
    : M collection :=
  current_records ← get_records net config (sld a) (tld a);
  lift (collect current_records []).

(** The loops of the differ.  [current[r]] is looked up for a key [r] of
    [current] (and [new[r]] for a key of [new]), so the [KeyError]
    branch is there for the lookup's sake and is never taken. *)
Fixpoint remove_unused_records_loop (current new : collection)
    (rs : list identity) (changed : bool) : M bool :=
  match rs with
  | [] => mret changed
  | r :: rs =>
      if negb (contains r new) then
        match lookup_item r current with
        | Some v =>
            emit (Print (Removing v));;
            remove_unused_records_loop current new rs true
        | None => lift (Raise (KeyError "r"))
        end
      else remove_unused_records_loop current new rs changed
  end.

Definition remove_unused_records (current new : collection) : M bool :=
  remove_unused_records_loop current new (keys current) false.

Fixpoint add_new_records_loop (current new : collection)
    (rs : list identity) (changed : bool) : M bool :=
  match rs with
  | [] => mret changed
  | r :: rs =>
      if negb (contains r current) then
        match lookup_item r new with
        | Some v =>
            emit (Print (Adding v));;
            add_new_records_loop current new rs true
        | None => lift (Raise (KeyError "r"))
        end
      else add_new_records_loop current new rs changed
  end.

Definition add_new_records (current new : collection) : M bool :=
  add_new_records_loop current new (keys new) false.

(** [for key, value in record.items(): data[f"{key}{num}"] = value] *)
Definition set_fields (num : nat) (r data : record) : record :=
  map_fold (λ key value data, <[key +:+ pretty num := value]> data) data r.

(** [for num, record in zip(count(num), records): ...] *)
Fixpoint fill_data (num : nat) (records : list record) (data : record) : record :=
  match records with
  | [] => data
  | r :: rs => fill_data (S num) rs (set_fields num r data)
  end.

Definition set_hosts : value := VStr "namecheap.domains.dns.setHosts".

Definition do_import (net : provider) (a : args) (config : record) : M unit :=
  current ← get_current net a config;
  new ← lift (get_new a);
  updated_removed ← remove_unused_records current new;
  updated_added ← add_new_records current new;
  if negb updated_removed || negb updated_added then mret tt
  else
    let data :=
      <["TLD" := VStr (tld a)]> (<["SLD" := VStr (sld a)]>
        (<["Command" := set_hosts]> ∅)) in
    let data := fill_data 1 (values new) data in
    if negb (dryrun a) then
      make_namecheap_request net config data;; mret tt
    else mret tt.

Definition do_export (net : provider) (a : args) (config : record) : M unit :=
  records ← get_records net config (sld a) (tld a);
  doc ← lift (sorted identity_lt dict_hash records);
  emit (Dump doc).

(** ** Observations on a run *)

Definition is_submission (e : event) : bool :=
  match e with
  | Post request => bool_decide (request !! "Command" = Some set_hosts)
  | _ => false
  end.

(** The write calls made to the provider. *)
Definition submissions {A} (m : M A) : list event := filter is_submission m.1.

(** A list that is empty or starts outside [P]: what may follow a
    numeral, for [P := numeric]. *)
Definition delimited {A} (P : A → bool) (t : list A) : Prop :=
  match t with [] => True | c :: _ => P c = false end.

(** What follows an item in the JSON text: the separator and the next
    items, then the closing brace. *)
Definition rest_items (kvs : list (string * value)) : list ascii :=
  match kvs with
  | [] => []
  | _ :: _ => [","; " "]%char ++ Json.dump_items kvs
  end ++ ["}"%char].

(** The four credentials [make_namecheap_request] reads from the
    configuration, and the request they complete. *)
Definition credentials (config : record) : result (value * value * value * value) :=
  api_user ← getitem "ApiUser" config;
  user_name ← getitem "UserName" config;
  api_key ← getitem "ApiKey" config;
  client_ip ← getitem "ClientIP" config;
  Ok (api_user, user_name, api_key, client_ip).

Definition sign (c : value * value * value * value) (data : record) : record :=
  let '(api_user, user_name, api_key, client_ip) := c in
  <["ClientIP" := client_ip]> (<["ApiKey" := api_key]>
    (<["UserName" := user_name]> (<["ApiUser" := api_user]> data))).

(** The data of the two requests of the program. *)
Definition get_hosts_data (a : args) : record :=
  <["TLD" := VStr (tld a)]> (<["SLD" := VStr (sld a)]>
    (<["Command" := VStr "namecheap.domains.dns.getHosts"]> ∅)).

Definition set_hosts_data (a : args) (new : collection) : record :=
  fill_data 1 (values new)
    (<["TLD" := VStr (tld a)]> (<["SLD" := VStr (sld a)]>
      (<["Command" := set_hosts]> ∅))).

(** Whether a key ends in a decimal digit; the keys of the request,
    [f"{key}{num}"], all do. *)
Definition ends_in_digit (s : string) : bool :=
  match last (String.list_ascii_of_string s) with
  | Some c => Json.digit c
  | None => false
  end.

(** The differ's two sets, in the spec's words: the entries of [current]
    whose identity is absent from [new], and the entries of [new] whose
    identity is absent from [current]. *)
Definition to_remove (current new : collection) : collection :=
  filter (λ kv, kv.1 ∉ keys new) current.
Definition to_add (current new : collection) : collection :=
  filter (λ kv, kv.1 ∉ keys current) new.

(** Whether the run reaches the submission: both flags set and no dry
    run. *)
Definition submits (a : args) (current new : collection) : bool :=
  bool_decide (to_remove current new ≠ []) &&
  bool_decide (to_add current new ≠ []) && negb (dryrun a).

(** The canonical attributes, in the spec's words: the record type and
    the host name under their document names, the provider's bookkeeping
    fields stripped, [MXPref] dropped unless the type is MX, [TTL]
    dropped when it is the default, every other attribute kept. *)
Definition stripped : list string :=
  ["AssociatedAppTitle"; "FriendlyName"; "HostId"; "Name"; "IsActive";
   "IsDDNSEnabled"; "Type"].

Definition cleaned_field (r : record) (name type_ ttl : value) (i : string)
    : option value :=
  if decide (i = "RecordType") then Some type_
  else if decide (i = "HostName") then Some name
  else if decide (i ∈ stripped) then None
  else if decide (i = "MXPref") then
    if decide (type_ = VStr "MX") then r !! i else None
  else if decide (i = "TTL") then
    if decide (ttl = VStr "1800") then None else r !! i
  else r !! i.

(** An identity whose type and name are strings, as every identity of a
    fetched record is; [<] never fails between two of them. *)
Definition stringy (k : identity) : Prop :=
  ∃ t n j, k = (VStr t, VStr n, j).

(** The elements of a list in the order of their first occurrence. *)
Fixpoint nub `{EqDecision A} (l : list A) : list A :=
  match l with
  | [] => []
  | x :: l => x :: filter (λ y, y ≠ x) (nub l)
  end.

(** Every record of the collection stands under its own identity. *)
Definition well_keyed (c : collection) : Prop :=
  Forall (λ kv, dict_hash kv.2 = Ok kv.1) c.

(** ** Sample data *)

Module Fixture.

Definition config : record :=
  <["ApiUser" := VStr "user"]> (<["UserName" := VStr "user"]>
    (<["ApiKey" := VStr "key"]> (<["ClientIP" := VStr "192.0.2.1"]> ∅))).

Definition cred : value * value * value * value :=
  (VStr "user", VStr "user", VStr "key", VStr "192.0.2.1").

(** A host as the provider reports it. *)
Definition host_www : host :=
  <["Name" := "www"]> (<["Type" := "A"]> (<["Address" := "1.2.3.4"]>
    (<["TTL" := "1800"]> (<["MXPref" := "10"]> (<["HostId" := "12"]>
      (<["IsActive" := "true"]> ∅)))))).

Definition host_mx : host :=
  <["Name" := "@"]> (<["Type" := "MX"]> (<["Address" := "mx.example.com."]>
    (<["TTL" := "3600"]> (<["MXPref" := "10"]> (<["HostId" := "13"]> ∅))))).

(** Records as a desired-state document declares them. *)
Definition rec_www : record :=
  <["HostName" := VStr "www"]> (<["RecordType" := VStr "A"]>
    (<["Address" := VStr "1.2.3.4"]> ∅)).

Definition rec_www' : record := <["Address" := VStr "5.6.7.8"]> rec_www.

Definition rec_mail : record :=
  <["HostName" := VStr "mail"]> (<["RecordType" := VStr "A"]>
    (<["Address" := VStr "1.2.3.5"]> ∅)).

Definition id_www : identity :=
  (VStr "A", VStr "www", Json.dumps (<["Address" := VStr "1.2.3.4"]> ∅)).
Definition id_www' : identity :=
  (VStr "A", VStr "www", Json.dumps (<["Address" := VStr "5.6.7.8"]> ∅)).
Definition id_mail : identity :=
  (VStr "A", VStr "mail", Json.dumps (<["Address" := VStr "1.2.3.5"]> ∅)).

Definition net_www : provider := λ _, Ok [host_www].
Definition net_empty : provider := λ _, Ok [].

Definition import (dry : bool) (doc : list record) : args :=
  {| sld := "example"; tld := "com"; dryrun := dry; input_file := doc |}.





End Fixture.

(** ** The entry point *)

(** [domain.split(".", 1)] unpacked into [(sld, tld)]: the name is cut at
    its first dot; without a dot the split has one part and the
    unpacking raises [ValueError] ([None]). *)
Fixpoint split_domain (s : string) : option (string * string) :=
  match s with
  | EmptyString => None
  | String c s' =>
      if decide (c = "."%char) then Some (EmptyString, s')
      else '(sld, tld) ← split_domain s'; Some (String c sld, tld)
  end.

(** The namespace [parse_args] returns: the domain, the subcommand
    ([command] is [do_import] or [do_export]) and, for [import], the
    dry-run flag and the parsed input document. *)
Inductive subcommand := Import | Export.

Record namespace := {
  domain : string;
  command : subcommand;
  ns_dryrun : bool;
  ns_input_file : list record;
}.



(** ** Vocabulary of the further properties *)

(** [k1] is not above [k2]: the test [k2 < k1] answers no. *)
Definition identity_le (k1 k2 : identity) : Prop :=
  identity_lt k2 k1 = Ok false.

(** The same on records, through their identities. *)
Definition record_le (r1 r2 : record) : Prop :=
  ∃ k1 k2, dict_hash r1 = Ok k1 ∧ dict_hash r2 = Ok k2 ∧ identity_le k1 k2.

(** The lexicographic order on pairs: the first components decide
    unless they are equal. *)
Definition lexle {A B} (leA : relation A) (leB : relation B)
    : relation (A * B) :=
  λ p q, (p.1 ≠ q.1 ∧ leA p.1 q.1) ∨ (p.1 = q.1 ∧ leB p.2 q.2).

(** The calls to the provider among the events of a run. *)
Definition is_call (e : event) : bool :=
  match e with Post _ => true | _ => false end.

Definition calls {A} (m : M A) : list event := filter is_call m.1.


(** The names a request always carries: the command, the domain and the
    credentials. *)
Definition request_names : list string :=
  ["Command"; "SLD"; "TLD"; "ApiUser"; "UserName"; "ApiKey"; "ClientIP"].

Definition credential_names : list string :=
  ["ApiUser"; "UserName"; "ApiKey"; "ClientIP"].

(** The attributes [get_records] needs in every host, in the order in
    which it reads them. *)
Definition required_attributes : list string := ["Name"; "Type"; "TTL"].

(** The first name of the list that the dict lacks. *)
Definition first_missing {V} (names : list string) (d : gmap string V)
    : option string :=
  head (filter (λ k, d !! k = None) names).

Module Fixture2.

Definition host_www_dup : host := <["HostId" := "99"]> Fixture.host_www.

(** The record [get_records] makes of [Fixture.host_mx]. *)
Definition rec_mx : record :=
  <["HostName" := VStr "@"]> (<["RecordType" := VStr "MX"]>
    (<["Address" := VStr "mx.example.com."]> (<["TTL" := VStr "3600"]>
      (<["MXPref" := VStr "10"]> ∅)))).

Definition id_mx : identity :=
  (VStr "MX", VStr "@",
   Json.dumps (<["Address" := VStr "mx.example.com."]>
     (<["TTL" := VStr "3600"]> (<["MXPref" := VStr "10"]> ∅)))).

Definition net_dup : provider :=
  λ _, Ok [Fixture.host_www; host_www_dup; Fixture.host_mx].

Definition net_mx_www : provider := λ _, Ok [Fixture.host_www; Fixture.host_mx].
Definition net_www_mx : provider := λ _, Ok [Fixture.host_mx; Fixture.host_www].

Definition ns_import : namespace :=
  {| domain := "example.co.uk"; command := Import; ns_dryrun := false;
     ns_input_file := [Fixture.rec_www'; Fixture.rec_mail] |}.

End Fixture2.

(** * Properties *)

(** ** The JSON text determines the dict *)

Section delimited.
Context {A : Type} (P : A → bool).

Lemma delimited_prefix_inj (l1 l2 t1 t2 : list A) :
  Forall (λ c, P c = true) l1 → Forall (λ c, P c = true) l2 →
  delimited P t1 → delimited P t2 →
  l1 ++ t1 = l2 ++ t2 → l1 = l2 ∧ t1 = t2.
Proof.
  intros H1; revert l2.
  induction H1 as [|c l1 Hc _ IH]; intros l2 H2 Ht1 Ht2 Heq.
  - destruct H2 as [|d l2 Hd _]; [done|].
    simpl in Heq. subst t1. simpl in Ht1. congruence.
  - destruct H2 as [|d l2 Hd H2]; simpl in Heq.
    + subst t2. simpl in Ht2. congruence.
    + injection Heq as -> Heq.
      destruct (IH _ H2 Ht1 Ht2 Heq) as [-> ->]. done.
Qed.
End delimited.

Module JsonFacts.
Import Json.

Lemma unescape_escape_char c l : unescape_char (escape_char c ++ l) = Some (c, l).
Proof. destruct c as [[] [] [] [] [] [] [] []]; reflexivity. Qed.

Lemma escape_inj_tail s1 s2 l1 l2 :
  escape s1 ++ quote :: l1 = escape s2 ++ quote :: l2 → s1 = s2 ∧ l1 = l2.
Proof.
  revert s2. induction s1 as [|c1 s1 IH]; intros [|c2 s2] Heq; simpl in Heq.
  - by injection Heq as ->.
  - apply (f_equal unescape_char) in Heq.
    rewrite <-app_assoc, unescape_escape_char in Heq. done.
  - apply (f_equal unescape_char) in Heq.
    rewrite <-app_assoc, unescape_escape_char in Heq. done.
  - apply (f_equal unescape_char) in Heq.
    rewrite <-!app_assoc, !unescape_escape_char in Heq.
    injection Heq as -> Heq. by destruct (IH _ Heq) as [-> ->].
Qed.

Lemma dump_string_inj_tail s1 s2 l1 l2 :
  dump_string s1 ++ l1 = dump_string s2 ++ l2 → s1 = s2 ∧ l1 = l2.
Proof.
  unfold dump_string. simpl. rewrite <-!app_assoc. simpl.
  intros [= Heq]. by apply escape_inj_tail.
Qed.

Lemma chars_app s1 s2 :
  String.list_ascii_of_string (s1 +:+ s2)
  = String.list_ascii_of_string s1 ++ String.list_ascii_of_string s2.
Proof. induction s1 as [|c s1 IH]; simpl; [done|]. by rewrite <-IH. Qed.

Lemma chars_inj s1 s2 :
  String.list_ascii_of_string s1 = String.list_ascii_of_string s2 → s1 = s2.
Proof.
  intros H. apply (f_equal String.string_of_list_ascii) in H.
  by rewrite !String.string_of_list_ascii_of_string in H.
Qed.

Lemma chars_of_inj l1 l2 :
  String.string_of_list_ascii l1 = String.string_of_list_ascii l2 → l1 = l2.
Proof.
  intros H. apply (f_equal String.list_ascii_of_string) in H.
  by rewrite !String.list_ascii_of_string_of_list_ascii in H.
Qed.

Lemma pretty_N_char_digit x : digit (pretty_N_char x) = true.
Proof. unfold pretty_N_char. by repeat case_match. Qed.

Lemma pretty_N_go_digits x s :
  Forall (λ c, digit c = true) (String.list_ascii_of_string s) →
  Forall (λ c, digit c = true) (String.list_ascii_of_string (pretty_N_go x s)).
Proof.
  revert s. induction (N.lt_wf_0 x) as [x _ IH]; intros s Hs.
  assert (x = 0 ∨ 0 < x)%N as [->|?] by lia.
  - by rewrite pretty_N_go_0.
  - rewrite pretty_N_go_step by done. apply IH; [by apply N.div_lt|].
    simpl. constructor; [apply pretty_N_char_digit|done].
Qed.

Lemma pretty_N_digits (x : N) :
  Forall (λ c, digit c = true) (String.list_ascii_of_string (pretty x)).
Proof.
  unfold pretty, pretty_N. case_decide.
  - by repeat constructor.
  - by apply pretty_N_go_digits.
Qed.

Lemma pretty_nat_digits (n : nat) :
  Forall (λ c, digit c = true) (String.list_ascii_of_string (pretty n)).
Proof. apply pretty_N_digits. Qed.

Lemma pretty_N_go_length x s :
  (String.length s ≤ String.length (pretty_N_go x s))%nat.
Proof.
  revert s. induction (N.lt_wf_0 x) as [x _ IH]; intros s.
  assert (x = 0 ∨ 0 < x)%N as [->|?] by lia.
  - by rewrite pretty_N_go_0.
  - rewrite pretty_N_go_step by done.
    etrans; [|by eapply IH, N.div_lt]. simpl. lia.
Qed.

Lemma pretty_N_nonempty (x : N) : pretty x ≠ "".
Proof.
  unfold pretty, pretty_N. case_decide; [done|].
  rewrite pretty_N_go_step by lia. intros Hs.
  pose proof (pretty_N_go_length (x `div` 10)%N
    (String (pretty_N_char (x `mod` 10)%N) "")) as Hlen.
  rewrite Hs in Hlen. simpl in Hlen. lia.
Qed.

Lemma dump_int_numeric z : Forall (λ c, numeric c = true) (dump_int z).
Proof.
  assert (∀ x : N, Forall (λ c, numeric c = true)
            (String.list_ascii_of_string (pretty x))) as HN.
  { intros x. eapply Forall_impl; [apply pretty_N_digits|].
    intros c Hc. unfold numeric. by rewrite Hc. }
  unfold dump_int. destruct z as [|p|p].
  - by repeat constructor.
  - apply (HN (N.pos p)).
  - change (pretty (Z.neg p)) with ("-" +:+ pretty (N.pos p)).
    rewrite chars_app. apply Forall_app. split; [by repeat constructor|apply HN].
Qed.

Lemma dump_int_nonempty z : dump_int z ≠ [].
Proof.
  unfold dump_int. destruct z as [|p|p]; [done| |done].
  change (pretty (Z.pos p)) with (pretty (N.pos p)).
  intros Hs. apply (pretty_N_nonempty (N.pos p)).
  apply chars_inj. by rewrite Hs.
Qed.

Lemma dump_int_inj z1 z2 : dump_int z1 = dump_int z2 → z1 = z2.
Proof. intros H. by apply (inj pretty), chars_inj. Qed.

Lemma dump_value_inj_tail v1 v2 t1 t2 :
  delimited numeric t1 → delimited numeric t2 →
  dump_value v1 ++ t1 = dump_value v2 ++ t2 → v1 = v2 ∧ t1 = t2.
Proof.
  intros Ht1 Ht2. destruct v1 as [s1|z1], v2 as [s2|z2]; simpl.
  - intros [-> ->]%dump_string_inj_tail. done.
  - pose proof (dump_int_numeric z2) as Hn.
    pose proof (dump_int_nonempty z2) as Hne.
    destruct (dump_int z2) as [|c l]; [done|].
    apply Forall_cons in Hn as [Hc _]. intros [= <- _]. done.
  - pose proof (dump_int_numeric z1) as Hn.
    pose proof (dump_int_nonempty z1) as Hne.
    destruct (dump_int z1) as [|c l]; [done|].
    apply Forall_cons in Hn as [Hc _]. intros [= -> _]. done.
  - intros Heq.
    apply delimited_prefix_inj with (P := numeric) in Heq
      as [?%dump_int_inj ->]; auto using dump_int_numeric.
    by subst.
Qed.

Lemma dump_item_inj_tail kv1 kv2 t1 t2 :
  delimited numeric t1 → delimited numeric t2 →
  dump_item kv1 ++ t1 = dump_item kv2 ++ t2 → kv1 = kv2 ∧ t1 = t2.
Proof.
  intros Ht1 Ht2. destruct kv1 as [k1 v1], kv2 as [k2 v2].
  unfold dump_item; cbn [fst snd]. rewrite <-!(app_assoc (dump_string _)).
  intros [-> Heq]%dump_string_inj_tail. simpl in Heq.
  injection Heq as Heq.
  by apply dump_value_inj_tail in Heq as [-> ->].
Qed.

Lemma rest_items_delimited kvs : delimited numeric (rest_items kvs).
Proof. by destruct kvs. Qed.

Lemma dump_items_cons kv kvs :
  dump_items (kv :: kvs) ++ ["}"%char] = dump_item kv ++ rest_items kvs.
Proof. unfold rest_items. simpl. by rewrite <-app_assoc. Qed.

Lemma dump_items_inj kvs1 kvs2 :
  dump_items kvs1 ++ ["}"%char] = dump_items kvs2 ++ ["}"%char] → kvs1 = kvs2.
Proof.
  revert kvs2. induction kvs1 as [|kv1 kvs1 IH]; intros [|kv2 kvs2]; [done| | |].
  - rewrite dump_items_cons. by destruct kv2.
  - rewrite dump_items_cons. by destruct kv1.
  - rewrite !dump_items_cons.
    intros [-> Hrest]%dump_item_inj_tail; auto using rest_items_delimited.
    f_equal. unfold rest_items in Hrest.
    destruct kvs1 as [|kv1' kvs1], kvs2 as [|kv2' kvs2]; try done.
    apply IH. rewrite <-!app_assoc in Hrest. by apply app_inv_head in Hrest.
Qed.

Lemma dumps_inj d1 d2 : dumps d1 = dumps d2 → d1 = d2.
Proof.
  unfold dumps. intros Hs. apply chars_of_inj in Hs.
  injection Hs as Hs. apply dump_items_inj in Hs. apply map_to_list_inj.
  rewrite <-(merge_sort_Permutation key_le (map_to_list d1)).
  rewrite <-(merge_sort_Permutation key_le (map_to_list d2)).
  unfold sorted_items in Hs. by rewrite Hs.
Qed.

End JsonFacts.

Example json_dumps_ex :
  Json.dumps (<["TTL" := VInt 3600]> (<["Address" := VStr "1.2.3.4"]> ∅))
  = String.string_of_list_ascii
      ("{" :: Json.quote :: String.list_ascii_of_string "Address" ++
       Json.quote :: ":" :: " " :: Json.quote ::
       String.list_ascii_of_string "1.2.3.4" ++
       Json.quote :: "," :: " " :: Json.quote ::
       String.list_ascii_of_string "TTL" ++
       Json.quote :: ":" :: " " :: String.list_ascii_of_string "3600" ++
       ["}"])%char.
Proof. reflexivity. Qed.

(** The quote and the backslash are escaped, a code point outside the
    printable range is written as [\u00xx]. *)
Example json_escape_ex :
  Json.escape (String Json.quote (String "a" (String "127" (String "233" ""))))
  = [Json.backslash; Json.quote; "a"; Json.backslash; "u"; "0"; "0"; "7"; "f";
     Json.backslash; "u"; "0"; "0"; "e"; "9"]%char.
Proof. reflexivity. Qed.

(** ** Identities *)

Lemma dict_hash_Ok (r : record) n t :
  r !! "HostName" = Some n → r !! "RecordType" = Some t →
  dict_hash r
  = Ok (t, n, Json.dumps (delete "RecordType" (delete "HostName" r))).
Proof.
  intros Hn Ht. unfold dict_hash, pop, getitem. rewrite Hn. simpl.
  rewrite lookup_delete_ne, Ht by done. done.
Qed.

Lemma dict_hash_Ok_inv (r : record) k :
  dict_hash r = Ok k →
  r !! "HostName" = Some k.1.2 ∧ r !! "RecordType" = Some k.1.1 ∧
  k.2 = Json.dumps (delete "RecordType" (delete "HostName" r)).
Proof.
  unfold dict_hash, pop, getitem.
  destruct (r !! "HostName") as [n|] eqn:Hn; simpl; [|done].
  rewrite lookup_delete_ne by done.
  destruct (r !! "RecordType") as [t|] eqn:Ht; simpl; [|done].
  by intros [= <-].
Qed.

(** Two records with the same identity are the same record. *)
Lemma dict_hash_inj (r1 r2 : record) k :
  dict_hash r1 = Ok k → dict_hash r2 = Ok k → r1 = r2.
Proof.
  intros (Hn1 & Ht1 & Hj1)%dict_hash_Ok_inv (Hn2 & Ht2 & Hj2)%dict_hash_Ok_inv.
  rewrite Hj1 in Hj2. apply JsonFacts.dumps_inj in Hj2.
  apply map_eq. intros i.
  destruct (decide (i = "HostName")) as [->|?]; [congruence|].
  destruct (decide (i = "RecordType")) as [->|?]; [congruence|].
  apply (f_equal (λ m : record, m !! i)) in Hj2.
  by rewrite !lookup_delete_ne in Hj2.
Qed.

(** ** First occurrences *)

Section nub.
Context `{EqDecision A}.
Implicit Types l : list A.

Lemma nub_elem_of l x : x ∈ nub l ↔ x ∈ l.
Proof.
  induction l as [|y l IH]; simpl; [done|].
  rewrite !elem_of_cons, list_elem_of_filter, IH.
  destruct (decide (x = y)); tauto.
Qed.

Lemma NoDup_nub l : NoDup (nub l).
Proof.
  induction l as [|y l IH]; simpl; constructor.
  - rewrite list_elem_of_filter. by intros [[] _].
  - by apply NoDup_filter.
Qed.

Lemma filter_ext_in (P Q : A → Prop)
    `{!∀ x, Decision (P x), !∀ x, Decision (Q x)} l :
  (∀ x, x ∈ l → P x ↔ Q x) → filter P l = filter Q l.
Proof.
  induction l as [|y l IH]; intros HPQ; [done|].
  rewrite !filter_cons, IH by (intros; apply HPQ; by right).
  apply decide_ext, HPQ. by left.
Qed.

Lemma filter_all (P : A → Prop) `{!∀ x, Decision (P x)} l :
  (∀ x, x ∈ l → P x) → filter P l = l.
Proof.
  induction l as [|y l IH]; intros HP; [done|].
  rewrite filter_cons_True, IH; [done| |].
  - intros; apply HP; by right.
  - apply HP; by left.
Qed.

Lemma nub_NoDup l : NoDup l → nub l = l.
Proof.
  induction 1 as [|x l Hx _ IH]; simpl; [done|]. rewrite IH. f_equal.
  apply filter_all. intros y Hy ->. done.
Qed.
End nub.

(** ** Collections *)

Lemma keys_setitem k v c :
  keys (setitem k v c) = if decide (k ∈ keys c) then keys c else keys c ++ [k].
Proof.
  unfold keys. induction c as [|[k' v'] c IH]; csimpl; [done|].
  destruct (decide (k = k')) as [->|Hne]; csimpl.
  - rewrite decide_True by left. done.
  - rewrite IH. destruct (decide (k ∈ c.*1)).
    + rewrite decide_True by (by right). done.
    + rewrite decide_False; [done|]. rewrite elem_of_cons. tauto.
Qed.

Lemma setitem_fresh k v c : k ∉ keys c → setitem k v c = c ++ [(k, v)].
Proof.
  unfold keys. induction c as [|[k' v'] c IH]; csimpl; [done|].
  rewrite not_elem_of_cons. intros [Hne Hin].
  rewrite decide_False by done. by rewrite IH.
Qed.

Lemma setitem_same k v c : (k, v) ∈ c → NoDup (keys c) → setitem k v c = c.
Proof.
  unfold keys. induction c as [|[k' v'] c IH]; csimpl; [by intros ?%elem_of_nil|].
  intros Hin Hnd. apply NoDup_cons in Hnd as [Hk' Hnd].
  destruct (decide (k = k')) as [->|Hne].
  - apply elem_of_cons in Hin as [[= ->]|Hin]; [done|].
    destruct Hk'. apply list_elem_of_fmap. by exists (k', v).
  - apply elem_of_cons in Hin as [[= -> ->]|Hin]; [done|]. by rewrite IH.
Qed.

Lemma lookup_item_Some k v c : lookup_item k c = Some v → (k, v) ∈ c.
Proof.
  induction c as [|[k' v'] c IH]; csimpl; [done|].
  destruct (decide (k = k')) as [->|?].
  - intros [= ->]. by left.
  - intros ?. right. auto.
Qed.

Lemma lookup_item_elem_of k v c :
  NoDup (keys c) → (k, v) ∈ c → lookup_item k c = Some v.
Proof.
  unfold keys. induction c as [|[k' v'] c IH]; csimpl; [by intros _ ?%elem_of_nil|].
  intros [Hk' Hnd]%NoDup_cons Hin.
  destruct (decide (k = k')) as [->|Hne].
  - apply elem_of_cons in Hin as [[= ->]|Hin]; [done|].
    destruct Hk'. apply list_elem_of_fmap. by exists (k', v).
  - apply elem_of_cons in Hin as [[= -> ->]|Hin]; [done|]. auto.
Qed.

Lemma lookup_item_None k c : lookup_item k c = None ↔ k ∉ keys c.
Proof.
  unfold keys. induction c as [|[k' v'] c IH]; csimpl.
  - split; [intros _ ?%elem_of_nil|]; done.
  - rewrite not_elem_of_cons. destruct (decide (k = k')); intuition congruence.
Qed.

Lemma lookup_item_is_Some k c : is_Some (lookup_item k c) ↔ k ∈ keys c.
Proof.
  rewrite <-not_eq_None_Some, lookup_item_None.
  destruct (decide (k ∈ keys c)); naive_solver.
Qed.

(** A key of a well-keyed collection determines its record. *)
Lemma well_keyed_elem_of c k r :
  well_keyed c → k ∈ keys c → dict_hash r = Ok k → (k, r) ∈ c.
Proof.
  intros Hwk (kv & -> & Hin)%list_elem_of_fmap Hr.
  pose proof (proj1 (Forall_forall _ _) Hwk _ Hin) as Hkv. simpl in Hkv.
  rewrite (dict_hash_inj _ _ _ Hr Hkv). by destruct kv.
Qed.

(** [collect] appends the first occurrences of the records that are not
    yet in the collection; a record met again changes nothing. *)
Lemma collect_spec rs l acc :
  decorate dict_hash rs = Ok l → well_keyed acc → NoDup (keys acc) →
  collect rs acc = Ok (acc ++ filter (λ kv, kv ∉ acc) (nub l)).
Proof.
  revert l acc. induction rs as [|r rs IH]; intros l acc; simpl.
  - intros [= <-] _ _. by rewrite app_nil_r.
  - destruct (dict_hash r) as [k|] eqn:Hk; simpl; [|done].
    destruct (decorate dict_hash rs) as [l'|] eqn:Hl'; simpl; [|done].
    intros [= <-] Hwk Hnd. simpl.
    destruct (decide (k ∈ keys acc)) as [Hin|Hnin].
    + pose proof (well_keyed_elem_of _ _ _ Hwk Hin Hk) as Hin'.
      rewrite setitem_same, (IH l' _ eq_refl) by done.
      rewrite filter_cons_False by (by intros []).
      rewrite list_filter_filter_l; [done|]. by intros kv ? ->.
    + assert ((k, r) ∉ acc) as Hnin'.
      { intros ?. apply Hnin, list_elem_of_fmap. by exists (k, r). }
      rewrite setitem_fresh by done. rewrite (IH l' _ eq_refl); cycle 1.
      { apply Forall_app. split; [done|]. by repeat constructor. }
      { unfold keys. rewrite fmap_app. apply NoDup_app. split_and!; [done| |].
        - intros k' ? ->%list_elem_of_singleton. done.
        - apply NoDup_singleton. }
      rewrite filter_cons_True, <-app_assoc by done. simpl. do 3 f_equal.
      rewrite list_filter_filter. apply list_filter_iff.
      intros kv. rewrite elem_of_app, list_elem_of_singleton. tauto.
Qed.


Lemma decorate_spec rs l :
  decorate dict_hash rs = Ok l ↔ l.*2 = rs ∧ well_keyed l.
Proof.
  revert l. induction rs as [|r rs IH]; intros l; simpl.
  - split.
    + intros [= <-]. split; [done|constructor].
    + intros [Hl _]. by apply fmap_nil_inv in Hl as ->.
  - split.
    + destruct (dict_hash r) as [k|] eqn:Hk; simpl; [|done].
      destruct (decorate dict_hash rs) as [l'|]; simpl; [|done].
      intros [= <-]. destruct (proj1 (IH l') eq_refl) as [<- Hwk].
      split; [done|]. by constructor.
    + destruct l as [|[k r'] l]; intros [[= -> Hl] Hwk].
      apply Forall_cons in Hwk as [Hk Hwk]. simpl in Hk. rewrite Hk. simpl.
      rewrite (proj2 (IH l)) by done. done.
Qed.

Lemma decorate_total rs :
  (∀ r, r ∈ rs → ∃ k, dict_hash r = Ok k) → ∃ l, decorate dict_hash rs = Ok l.
Proof.
  induction rs as [|r rs IH]; intros Hrs; simpl; [by eexists|].
  destruct (Hrs r) as [k ->]; [by left|]. simpl.
  destruct IH as [l ->]; [|by eexists]. intros; apply Hrs; by right.
Qed.

Lemma collect_Raise rs acc e :
  decorate dict_hash rs = Raise e → collect rs acc = Raise e.
Proof.
  revert acc. induction rs as [|r rs IH]; intros acc; simpl; [done|].
  destruct (dict_hash r) as [k|]; simpl; [|done].
  destruct (decorate dict_hash rs) as [l|]; simpl; [done|].
  intros [= <-]. by apply IH.
Qed.

Lemma collect_nil rs l :
  decorate dict_hash rs = Ok l → collect rs [] = Ok (nub l).
Proof.
  intros Hl. rewrite (collect_spec rs l []); [|done|constructor|constructor].
  simpl. f_equal. apply filter_all. intros kv _. apply not_elem_of_nil.
Qed.

Lemma well_keyed_nub l : well_keyed l → well_keyed (nub l).
Proof.
  unfold well_keyed. rewrite !Forall_forall.
  intros Hl kv Hkv. by apply Hl, nub_elem_of.
Qed.

Lemma well_keyed_NoDup l : well_keyed l → NoDup l → NoDup (keys l).
Proof.
  intros Hwk Hnd. unfold keys. apply NoDup_fmap_2_strong; [|done].
  intros [k1 r1] [k2 r2] H1 H2 Heq. simpl in Heq. subst k2.
  pose proof (proj1 (Forall_forall _ _) Hwk _ H1) as Hk1.
  pose proof (proj1 (Forall_forall _ _) Hwk _ H2) as Hk2.
  simpl in *. by rewrite (dict_hash_inj _ _ _ Hk1 Hk2).
Qed.

(** What a successful [collect] returns: its keys are unique, each
    record stands under its identity, and it holds the records of the
    list. *)
Lemma collect_Ok rs c :
  collect rs [] = Ok c →
  well_keyed c ∧ NoDup (keys c) ∧ (∀ r, r ∈ values c ↔ r ∈ rs) ∧
  (∀ k, k ∈ keys c ↔ ∃ r, r ∈ rs ∧ dict_hash r = Ok k).
Proof.
  destruct (decorate dict_hash rs) as [l|e] eqn:Hl.
  - rewrite (collect_nil _ _ Hl). intros [= <-].
    apply decorate_spec in Hl as [<- Hwk].
    assert (well_keyed (nub l)) as Hwk' by by apply well_keyed_nub.
    split_and!; [done|apply well_keyed_NoDup; auto using NoDup_nub| |].
    + intros r. unfold values. rewrite !list_elem_of_fmap.
      by setoid_rewrite nub_elem_of.
    + intros k. unfold keys. rewrite list_elem_of_fmap.
      setoid_rewrite nub_elem_of. split.
      * intros ([k' r] & -> & Hin). exists r. split.
        -- apply list_elem_of_fmap. by exists (k', r).
        -- apply (proj1 (Forall_forall _ _) Hwk _ Hin).
      * intros (r & ([k' r'] & -> & Hin)%list_elem_of_fmap & Hk).
        exists (k', r'). split; [|done]. simpl in *.
        pose proof (proj1 (Forall_forall _ _) Hwk _ Hin) as Hk'. simpl in Hk'.
        congruence.
  - by rewrite (collect_Raise _ _ _ Hl).
Qed.

(** ** Running computations *)

Lemma bind_Ok {A B} (f : A → M B) t a : (t, Ok a) ≫= f = (t ++ (f a).1, (f a).2).
Proof. done. Qed.

Lemma bind_Raise {A B} (f : A → M B) t e : (t, Raise e) ≫= f = (t, Raise e).
Proof. done. Qed.

Lemma bind_lift_Ok {A B} (f : A → M B) a : lift (Ok a) ≫= f = f a.
Proof. unfold lift. rewrite bind_Ok. by destruct (f a). Qed.

Lemma make_namecheap_request_run net config data :
  make_namecheap_request net config data
  = match credentials config with
    | Ok c => ([Post (sign c data)], net (sign c data))
    | Raise e => ([], Raise e)
    end.
Proof.
  unfold make_namecheap_request, credentials.
  destruct (getitem "ApiUser" config) as [u|]; [|done].
  destruct (getitem "UserName" config) as [n|]; [|done].
  destruct (getitem "ApiKey" config) as [k|]; [|done].
  destruct (getitem "ClientIP" config) as [ip|]; [|done].
  rewrite !bind_lift_Ok. simpl. unfold mbind, M_bind. simpl.
  by destruct (net _).
Qed.

Lemma get_records_run net config sld tld :
  get_records net config sld tld
  = let data := <["TLD" := VStr tld]> (<["SLD" := VStr sld]>
      (<["Command" := VStr "namecheap.domains.dns.getHosts"]> ∅)) in
    match credentials config with
    | Ok c =>
        ([Post (sign c data)],
         hosts ← net (sign c data); clean_records (dict_of_attrib <$> hosts))
    | Raise e => ([], Raise e)
    end.
Proof.
  unfold get_records. rewrite make_namecheap_request_run. simpl.
  destruct (credentials config) as [c|]; [|done].
  destruct (net _) as [hosts|]; [|done]. by rewrite bind_Ok.
Qed.

Lemma get_current_run net a config :
  get_current net a config
  = match credentials config with
    | Ok c =>
        ([Post (sign c (get_hosts_data a))],
         hosts ← net (sign c (get_hosts_data a));
         records ← clean_records (dict_of_attrib <$> hosts);
         collect records [])
    | Raise e => ([], Raise e)
    end.
Proof.
  unfold get_current. rewrite get_records_run. simpl. fold (get_hosts_data a).
  destruct (credentials config) as [c|]; [|done].
  destruct (net _) as [hosts|]; [|done]. simpl.
  by destruct (clean_records _) as [records|].
Qed.

(** ** The differ *)

Lemma remove_unused_records_loop_spec current new rs changed :
  (∀ r, r ∈ rs → r ∈ keys current) →
  remove_unused_records_loop current new rs changed
  = ((λ r, Print (Removing (default ∅ (lookup_item r current))))
       <$> filter (λ r, r ∉ keys new) rs,
     Ok (changed || bool_decide (filter (λ r, r ∉ keys new) rs ≠ []))).
Proof.
  revert changed. induction rs as [|r rs IH]; intros changed Hrs; simpl.
  - by rewrite orb_false_r.
  - unfold contains. rewrite filter_cons.
    destruct (decide (r ∉ keys new)) as [Hr|Hr].
    + rewrite bool_decide_eq_false_2 by done. simpl.
      destruct (proj2 (lookup_item_is_Some r current)) as [v ->];
        [apply Hrs; by left|].
      unfold emit. rewrite bind_Ok, IH by (intros; apply Hrs; by right).
      simpl. by rewrite orb_true_r.
    + rewrite bool_decide_eq_true_2 by (by apply dec_stable). simpl.
      apply IH. intros; apply Hrs; by right.
Qed.

Lemma add_new_records_loop_spec current new rs changed :
  (∀ r, r ∈ rs → r ∈ keys new) →
  add_new_records_loop current new rs changed
  = ((λ r, Print (Adding (default ∅ (lookup_item r new))))
       <$> filter (λ r, r ∉ keys current) rs,
     Ok (changed || bool_decide (filter (λ r, r ∉ keys current) rs ≠ []))).
Proof.
  revert changed. induction rs as [|r rs IH]; intros changed Hrs; simpl.
  - by rewrite orb_false_r.
  - unfold contains. rewrite filter_cons.
    destruct (decide (r ∉ keys current)) as [Hr|Hr].
    + rewrite bool_decide_eq_false_2 by done. simpl.
      destruct (proj2 (lookup_item_is_Some r new)) as [v ->];
        [apply Hrs; by left|].
      unfold emit. rewrite bind_Ok, IH by (intros; apply Hrs; by right).
      simpl. by rewrite orb_true_r.
    + rewrite bool_decide_eq_true_2 by (by apply dec_stable). simpl.
      apply IH. intros; apply Hrs; by right.
Qed.

(** Looking the filtered keys up gives the records of the filtered
    entries. *)
Lemma lookup_filtered_keys (P : identity → Prop) `{!∀ k, Decision (P k)}
    (c : collection) :
  NoDup (keys c) →
  (λ r, default ∅ (lookup_item r c)) <$> filter P (keys c)
  = values (filter (λ kv, P kv.1) c).
Proof.
  intros Hnd. unfold keys, values.
  assert (∀ l : collection, (∀ kv, kv ∈ l → kv ∈ c) →
    (λ r, default ∅ (lookup_item r c)) <$> filter P (l.*1)
    = (filter (λ kv, P kv.1) l).*2) as Hgen; [|by apply Hgen].
  induction l as [|[k v] l IH]; intros Hl; csimpl; [done|].
  rewrite !filter_cons. simpl.
  assert (lookup_item k c = Some v) as Hk.
  { apply lookup_item_elem_of; [done|]. apply Hl. by left. }
  destruct (decide (P k)); csimpl.
  - rewrite Hk, IH; [done|]. intros; apply Hl; by right.
  - apply IH. intros; apply Hl; by right.
Qed.

Lemma filter_keys (P : identity → Prop) `{!∀ k, Decision (P k)}
    (c : collection) :
  filter P (keys c) = keys (filter (λ kv, P kv.1) c).
Proof.
  unfold keys. induction c as [|[k v] c IH]; csimpl; [done|].
  rewrite !filter_cons. simpl. destruct (decide (P k)); csimpl; by rewrite IH.
Qed.

Lemma remove_unused_records_spec current new :
  NoDup (keys current) →
  remove_unused_records current new
  = (Print ∘ Removing <$> values (to_remove current new),
     Ok (bool_decide (to_remove current new ≠ []))).
Proof.
  intros Hnd. unfold remove_unused_records.
  rewrite remove_unused_records_loop_spec by done. simpl. f_equal.
  - pose proof (lookup_filtered_keys (λ k, k ∉ keys new) current Hnd) as Hv.
    cbv beta in Hv. fold (to_remove current new) in Hv.
    by rewrite <-Hv, <-list_fmap_compose.
  - f_equal. rewrite filter_keys. fold (to_remove current new).
    apply bool_decide_ext. unfold keys.
    by destruct (to_remove current new).
Qed.

Lemma add_new_records_spec current new :
  NoDup (keys new) →
  add_new_records current new
  = (Print ∘ Adding <$> values (to_add current new),
     Ok (bool_decide (to_add current new ≠ []))).
Proof.
  intros Hnd. unfold add_new_records.
  rewrite add_new_records_loop_spec by done. simpl. f_equal.
  - pose proof (lookup_filtered_keys (λ k, k ∉ keys current) new Hnd) as Hv.
    cbv beta in Hv. fold (to_add current new) in Hv.
    by rewrite <-Hv, <-list_fmap_compose.
  - f_equal. rewrite filter_keys. fold (to_add current new).
    apply bool_decide_ext. unfold keys.
    by destruct (to_add current new).
Qed.

(** ** The request data *)

Lemma append_inj_r s1 s2 t : s1 +:+ t = s2 +:+ t → s1 = s2.
Proof.
  intros H%(f_equal String.list_ascii_of_string).
  rewrite !JsonFacts.chars_app in H.
  by apply app_inv_tail, JsonFacts.chars_inj in H.
Qed.

Lemma numbered_ends_in_digit key (num : nat) :
  ends_in_digit (key +:+ pretty num) = true.
Proof.
  unfold ends_in_digit. rewrite JsonFacts.chars_app.
  pose proof (JsonFacts.pretty_nat_digits num) as Hd.
  pose proof (JsonFacts.pretty_N_nonempty (N.of_nat num)) as Hne.
  change (pretty (N.of_nat num)) with (pretty num) in Hne.
  destruct (String.list_ascii_of_string (pretty num)) as [|c l] eqn:Hl
    using rev_ind.
  - destruct Hne. apply JsonFacts.chars_inj. by rewrite Hl.
  - rewrite app_assoc, last_snoc.
    by apply Forall_app in Hd as [_ [Hc _]%Forall_cons].
Qed.

Lemma numbered_inj k1 k2 (n1 n2 : nat) :
  ends_in_digit k1 = false → ends_in_digit k2 = false →
  k1 +:+ pretty n1 = k2 +:+ pretty n2 → k1 = k2 ∧ n1 = n2.
Proof.
  intros Hk1 Hk2 Heq%(f_equal String.list_ascii_of_string).
  rewrite !JsonFacts.chars_app in Heq.
  apply (f_equal reverse) in Heq. rewrite !reverse_app in Heq.
  assert (∀ k, ends_in_digit k = false →
    delimited Json.digit (reverse (String.list_ascii_of_string k))) as Hdel.
  { intros k. unfold ends_in_digit.
    destruct (String.list_ascii_of_string k) as [|c l _] using rev_ind; [done|].
    by rewrite last_snoc, reverse_snoc. }
  apply delimited_prefix_inj with (P := Json.digit) in Heq as [Hn Hk]; auto.
  - apply (inj reverse), JsonFacts.chars_inj in Hk.
    apply (inj reverse), JsonFacts.chars_inj, (inj pretty) in Hn. done.
  - apply Forall_reverse, JsonFacts.pretty_nat_digits.
  - apply Forall_reverse, JsonFacts.pretty_nat_digits.
Qed.

Lemma set_fields_spec (num : nat) (r data : record) :
  (∀ key v, r !! key = Some v →
     set_fields num r data !! (key +:+ pretty num) = Some v) ∧
  (∀ k, (∀ key, is_Some (r !! key) → key +:+ pretty num ≠ k) →
     set_fields num r data !! k = data !! k).
Proof.
  unfold set_fields.
  apply (map_fold_weak_ind (λ (acc : record) (m : record),
    (∀ key v, m !! key = Some v → acc !! (key +:+ pretty num) = Some v) ∧
    (∀ k, (∀ key, is_Some (m !! key) → key +:+ pretty num ≠ k) →
       acc !! k = data !! k))).
  - split; [by intros ?? ?%lookup_empty_Some|done].
  - intros i x m acc Hi [IH1 IH2]. split.
    + intros key v. destruct (decide (key = i)) as [->|Hne].
      * rewrite !lookup_insert_eq. done.
      * rewrite lookup_insert_ne by done. intros Hkey.
        rewrite lookup_insert_ne by (by intros ?%append_inj_r). auto.
    + intros k Hk. rewrite lookup_insert_ne.
      * apply IH2. intros key Hkey. apply Hk.
        rewrite lookup_insert_ne; [done|]. intros ->.
        rewrite Hi in Hkey. by destruct Hkey.
      * apply Hk. by rewrite lookup_insert_eq.
Qed.

Lemma fill_data_lookup_other (num : nat) rs (data : record) k :
  (∀ i r key, rs !! i = Some r → is_Some (r !! key) →
     key +:+ pretty (num + i)%nat ≠ k) →
  fill_data num rs data !! k = data !! k.
Proof.
  revert num data. induction rs as [|r rs IH]; intros num data Hk; simpl; [done|].
  rewrite IH.
  - apply set_fields_spec. intros key Hkey.
    specialize (Hk 0%nat r key eq_refl Hkey). by rewrite Nat.add_0_r in Hk.
  - intros i r' key Hi Hkey. specialize (Hk (S i) r' key Hi Hkey).
    by rewrite Nat.add_succ_r in Hk.
Qed.

Lemma fill_data_lookup (num : nat) rs (data : record) i r key v :
  rs !! i = Some r → r !! key = Some v →
  (∀ j r' key', rs !! j = Some r' → is_Some (r' !! key') → (i < j)%nat →
     key' +:+ pretty (num + j)%nat ≠ key +:+ pretty (num + i)%nat) →
  fill_data num rs data !! (key +:+ pretty (num + i)%nat) = Some v.
Proof.
  revert num data i.
  induction rs as [|r0 rs IH]; intros num data [|i] Hi Hkey Hlater;
    simplify_eq/=.
  - rewrite fill_data_lookup_other.
    + rewrite Nat.add_0_r. by apply set_fields_spec.
    + intros j r' key' Hj Hkey'. rewrite Nat.add_succ_comm.
      apply (Hlater (S j) r' key' Hj Hkey'). lia.
  - rewrite <-Nat.add_succ_comm. apply IH; [done..|].
    intros j r' key' Hj Hkey' Hij. rewrite !Nat.add_succ_comm.
    apply (Hlater (S j) r' key' Hj Hkey'). lia.
Qed.

(** Keys that do not end in a digit are out of reach of the numbered
    fields. *)
Lemma fill_data_lookup_plain (num : nat) rs (data : record) k :
  ends_in_digit k = false → fill_data num rs data !! k = data !! k.
Proof.
  intros Hk. apply fill_data_lookup_other. intros i r key _ _ <-.
  by rewrite numbered_ends_in_digit in Hk.
Qed.

Ltac not_in_list :=
  repeat (apply not_elem_of_cons; split; [done|]); apply not_elem_of_nil.

Lemma sign_lookup c (data : record) k :
  k ∉ ["ApiUser"; "UserName"; "ApiKey"; "ClientIP"] →
  sign c data !! k = data !! k.
Proof.
  destruct c as [[[u n] key] ip]. unfold sign.
  rewrite !not_elem_of_cons. intros (? & ? & ? & ? & _).
  by rewrite !lookup_insert_ne.
Qed.

Lemma sign_lookup_numbered c (data : record) key (num : nat) :
  sign c data !! (key +:+ pretty num) = data !! (key +:+ pretty num).
Proof.
  apply sign_lookup. pose proof (numbered_ends_in_digit key num) as Hd.
  rewrite !not_elem_of_cons.
  split_and!; [intros Heq..|apply not_elem_of_nil]; by rewrite Heq in Hd.
Qed.

Lemma is_submission_get_hosts c a :
  is_submission (Post (sign c (get_hosts_data a))) = false.
Proof.
  simpl. apply bool_decide_eq_false_2.
  rewrite sign_lookup by not_in_list.
  unfold get_hosts_data. by rewrite !lookup_insert_ne, lookup_insert_eq by done.
Qed.

Lemma is_submission_set_hosts c a new :
  is_submission (Post (sign c (set_hosts_data a new))) = true.
Proof.
  simpl. apply bool_decide_eq_true_2.
  rewrite sign_lookup by not_in_list.
  unfold set_hosts_data. rewrite fill_data_lookup_plain by done.
  by rewrite !lookup_insert_ne, lookup_insert_eq by done.
Qed.

(** ** Runs of [do_import] *)

Lemma get_current_Ok_inv net a config t current :
  get_current net a config = (t, Ok current) →
  ∃ c hosts records,
    credentials config = Ok c ∧ t = [Post (sign c (get_hosts_data a))] ∧
    net (sign c (get_hosts_data a)) = Ok hosts ∧
    clean_records (dict_of_attrib <$> hosts) = Ok records ∧
    collect records [] = Ok current.
Proof.
  rewrite get_current_run. destruct (credentials config) as [c|]; [|done].
  intros [= <- Hres]. exists c.
  destruct (net _) as [hosts|] eqn:Hnet; [|done]. simpl in Hres.
  destruct (clean_records _) as [records|] eqn:Hrec; [|done]. simpl in Hres.
  by exists hosts, records.
Qed.

Lemma get_current_submissions net a config :
  submissions (get_current net a config) = [].
Proof.
  rewrite get_current_run. unfold submissions.
  destruct (credentials config) as [c|]; [|done]. cbn [fst].
  rewrite filter_cons_False; [done|].
  apply Is_true_false, is_submission_get_hosts.
Qed.

Lemma do_import_fetch_Raise net a config t e :
  get_current net a config = (t, Raise e) →
  do_import net a config = (t, Raise e).
Proof. unfold do_import. by intros ->. Qed.

Lemma do_import_load_Raise net a config t current e :
  get_current net a config = (t, Ok current) → get_new a = Raise e →
  do_import net a config = (t, Raise e).
Proof.
  unfold do_import. intros -> ->. rewrite bind_Ok. simpl.
  by rewrite app_nil_r.
Qed.

Lemma do_import_run net a config t current new :
  get_current net a config = (t, Ok current) → get_new a = Ok new →
  ∃ c, credentials config = Ok c ∧
  do_import net a config
  = (t ++ (Print ∘ Removing <$> values (to_remove current new))
       ++ (Print ∘ Adding <$> values (to_add current new))
       ++ (if submits a current new
           then [Post (sign c (set_hosts_data a new))] else []),
     if submits a current new
     then net (sign c (set_hosts_data a new)) ≫= λ _, Ok tt
     else Ok tt).
Proof.
  intros Hcur Hnew.
  destruct (get_current_Ok_inv _ _ _ _ _ Hcur)
    as (c & hosts & records & Hc & -> & _ & _ & Hcol).
  apply collect_Ok in Hcol as (_ & Hnd1 & _).
  pose proof Hnew as Hnew'. apply collect_Ok in Hnew' as (_ & Hnd2 & _).
  exists c. split; [done|]. unfold do_import, submits.
  rewrite Hcur, bind_Ok, Hnew, bind_lift_Ok.
  rewrite remove_unused_records_spec, bind_Ok by done.
  rewrite add_new_records_spec, bind_Ok by done.
  fold (set_hosts_data a new).
  destruct (bool_decide (to_remove current new ≠ [])),
    (bool_decide (to_add current new ≠ [])), (dryrun a); simpl;
    rewrite ?app_nil_r; try done.
  rewrite make_namecheap_request_run, Hc. simpl.
  by destruct (net _).
Qed.

Lemma submissions_prints {A} (f : A → message) (l : list A) :
  filter is_submission (Print ∘ f <$> l) = [].
Proof.
  induction l as [|x l IH]; [done|]. csimpl.
  rewrite filter_cons_False; [done|]. by apply Is_true_false.
Qed.

(** The write calls of a run: one, when both flags are set outside a
    dry run, and none otherwise. *)
Lemma do_import_submissions net a config t current new :
  get_current net a config = (t, Ok current) → get_new a = Ok new →
  ∃ c, credentials config = Ok c ∧
  submissions (do_import net a config)
  = if submits a current new
    then [Post (sign c (set_hosts_data a new))] else [].
Proof.
  intros Hcur Hnew.
  destruct (do_import_run _ _ _ _ _ _ Hcur Hnew) as (c & Hc & ->).
  exists c. split; [done|]. unfold submissions. simpl.
  rewrite !filter_app, !submissions_prints. simpl.
  pose proof (get_current_submissions net a config) as Ht.
  unfold submissions in Ht. rewrite Hcur in Ht. simpl in Ht. rewrite Ht.
  destruct (submits a current new); [|done].
  rewrite filter_cons_True; [done|].
  apply Is_true_true, is_submission_set_hosts.
Qed.

Lemma do_import_submissions_Raise net a config t e :
  get_current net a config = (t, Raise e) ∨
  (∃ current, get_current net a config = (t, Ok current) ∧ get_new a = Raise e) →
  submissions (do_import net a config) = [].
Proof.
  pose proof (get_current_submissions net a config) as Ht.
  unfold submissions in *.
  intros [Hcur|(current & Hcur & Hnew)].
  - rewrite (do_import_fetch_Raise _ _ _ _ _ Hcur). by rewrite Hcur in Ht.
  - rewrite (do_import_load_Raise _ _ _ _ _ _ Hcur Hnew). by rewrite Hcur in Ht.
Qed.

(** ** Canonical records *)

Ltac by_compute := apply (bool_decide_unpack _); vm_compute; exact I.

(** Decides the tests on closed keys that a lookup leaves behind. *)
Ltac closed_decide :=
  repeat match goal with
  | |- context [@decide (?a = ?b) ?d] =>
      first [ rewrite (@decide_True _ (a = b) d) by reflexivity
            | rewrite (@decide_False _ (a = b) d) by discriminate ]
  | |- context [@decide (?a ∈ ?b) ?d] =>
      first [ rewrite (@decide_True _ (a ∈ b) d) by by_compute
            | rewrite (@decide_False _ (a ∈ b) d) by by_compute ]
  end.

(** Settles the goal for the key [c] and goes on with [i ≠ c]. *)
Ltac at_key i c :=
  destruct (decide (i = c)) as [->|?];
  [ repeat (rewrite lookup_insert || rewrite lookup_delete);
    closed_decide; try done |].

Lemma clean_record_spec (r : record) :
  match r !! "Name", r !! "Type", r !! "TTL" with
  | Some name, Some type_, Some ttl =>
      ∃ r', clean_record r = Ok r' ∧
            ∀ i, r' !! i = cleaned_field r name type_ ttl i
  | None, _, _ => clean_record r = Raise (KeyError "Name")
  | Some _, None, _ => clean_record r = Raise (KeyError "Type")
  | Some _, Some _, None => clean_record r = Raise (KeyError "TTL")
  end.
Proof.
  unfold clean_record, pop, pop_default, getitem.
  rewrite !lookup_delete_ne by done.
  destruct (r !! "Name") as [name|] eqn:Hname; [|done]. simpl.
  rewrite !lookup_delete_ne, lookup_insert_ne, !lookup_delete_ne by done.
  destruct (r !! "Type") as [type_|] eqn:Htype; [|done]. simpl.
  assert (∀ m : record,
    (if bool_decide (type_ ≠ VStr "MX") then delete "MXPref" m else m)
      !! "Type" = m !! "Type") as ->.
  { intros m. case_bool_decide; [by rewrite lookup_delete_ne|done]. }
  rewrite !lookup_delete_ne, lookup_insert_ne, !lookup_delete_ne by done.
  rewrite Htype. simpl.
  rewrite lookup_insert_ne, lookup_delete_ne by done.
  assert (∀ m : record,
    (if bool_decide (type_ ≠ VStr "MX") then delete "MXPref" m else m)
      !! "TTL" = m !! "TTL") as ->.
  { intros m. case_bool_decide; [by rewrite lookup_delete_ne|done]. }
  rewrite !lookup_delete_ne, lookup_insert_ne, !lookup_delete_ne by done.
  destruct (r !! "TTL") as [ttl|] eqn:Httl; [|done]. simpl.
  repeat case_bool_decide; (eexists; split; [done|]); intros i;
    unfold cleaned_field;
    repeat match goal with
    | |- context [decide (?x = VStr ?s)] =>
        first [ rewrite (decide_True (P := x = VStr s)) by done
              | rewrite (decide_False (P := x = VStr s)) by done ]
    end;
    at_key i "RecordType"; at_key i "HostName";
    at_key i "AssociatedAppTitle"; at_key i "FriendlyName";
    at_key i "HostId"; at_key i "Name"; at_key i "IsActive";
    at_key i "IsDDNSEnabled"; at_key i "Type"; at_key i "MXPref";
    at_key i "TTL";
    (rewrite decide_False
       by (unfold stripped;
           repeat (apply not_elem_of_cons; split; [assumption|]);
           apply not_elem_of_nil));
    by repeat first [ rewrite lookup_delete_ne by congruence
                    | rewrite lookup_insert_ne by congruence ].
Qed.

(** The canonical record of a host that has a name, a type and a TTL. *)
Lemma clean_host (h : host) n ty t :
  h !! "Name" = Some n → h !! "Type" = Some ty → h !! "TTL" = Some t →
  ∃ r, clean_record (dict_of_attrib h) = Ok r ∧
       ∀ i, r !! i
            = cleaned_field (dict_of_attrib h) (VStr n) (VStr ty) (VStr t) i.
Proof.
  intros Hn Hty Ht. pose proof (clean_record_spec (dict_of_attrib h)) as Hs.
  unfold dict_of_attrib in Hs at 1 2 3.
  by rewrite !lookup_fmap, Hn, Hty, Ht in Hs.
Qed.

Lemma clean_record_Ok_inv (h : host) (r : record) :
  clean_record (dict_of_attrib h) = Ok r →
  ∃ n ty t,
    h !! "Name" = Some n ∧ h !! "Type" = Some ty ∧ h !! "TTL" = Some t ∧
    ∀ i, r !! i
         = cleaned_field (dict_of_attrib h) (VStr n) (VStr ty) (VStr t) i.
Proof.
  intros Hr. pose proof (clean_record_spec (dict_of_attrib h)) as Hs.
  unfold dict_of_attrib in Hs at 1 2 3. rewrite !lookup_fmap in Hs.
  destruct (h !! "Name") as [n|]; simpl in Hs; [|congruence].
  destruct (h !! "Type") as [ty|]; simpl in Hs; [|congruence].
  destruct (h !! "TTL") as [t|]; simpl in Hs; [|congruence].
  destruct Hs as (r' & Hr' & Hi). exists n, ty, t.
  split_and!; [done..|]. congruence.
Qed.

(** The provider's MX host keeps its [MXPref] and its TTL of 3600; the
    A host loses its stray [MXPref] and its default TTL. *)
Example clean_record_mx_ex :
  clean_record (dict_of_attrib Fixture.host_mx)
  = Ok (<["HostName" := VStr "@"]> (<["RecordType" := VStr "MX"]>
         (<["Address" := VStr "mx.example.com."]> (<["TTL" := VStr "3600"]>
           (<["MXPref" := VStr "10"]> ∅))))).
Proof. reflexivity. Qed.

Example clean_record_www_ex :
  clean_record (dict_of_attrib Fixture.host_www) = Ok Fixture.rec_www.
Proof. reflexivity. Qed.

Example clean_record_no_ttl_ex :
  clean_record (dict_of_attrib (delete "TTL" Fixture.host_www))
  = Raise (KeyError "TTL").
Proof. reflexivity. Qed.

Lemma dict_hash_ne (r1 r2 : record) k1 k2 :
  dict_hash r1 = Ok k1 → dict_hash r2 = Ok k2 → r1 ≠ r2 → k1 ≠ k2.
Proof. intros H1 H2 Hne <-. by apply Hne, (dict_hash_inj _ _ k1). Qed.

Lemma dict_hash_is_Ok (r : record) :
  is_Some (r !! "HostName") → is_Some (r !! "RecordType") →
  ∃ k, dict_hash r = Ok k.
Proof. intros [n Hn] [t Ht]. rewrite (dict_hash_Ok _ _ _ Hn Ht). by eexists. Qed.

(** ** The claims *)

Lemma filter_none {A} (P : A → Prop) `{!∀ x, Decision (P x)} (l : list A) :
  (∀ x, x ∈ l → ¬ P x) → filter P l = [].
Proof.
  induction l as [|y l IH]; intros HP; [done|].
  rewrite filter_cons_False, IH; [done| |].
  - intros; apply HP; by right.
  - apply HP; by left.
Qed.

Lemma elem_of_keys_filter (P : identity → Prop) `{!∀ k, Decision (P k)}
    (c : collection) k :
  k ∈ keys (filter (λ kv, P kv.1) c) ↔ P k ∧ k ∈ keys c.
Proof.
  unfold keys. rewrite !list_elem_of_fmap. split.
  - intros (kv & -> & [HP Hin]%list_elem_of_filter). split; [done|by exists kv].
  - intros (HP & kv & -> & Hin). exists kv. split; [done|].
    by apply list_elem_of_filter.
Qed.

Lemma to_remove_nil_iff current new :
  to_remove current new = [] ↔ ∀ k, k ∈ keys current → k ∈ keys new.
Proof.
  unfold to_remove. split.
  - intros Hnil k ([k' v] & -> & Hin)%list_elem_of_fmap. simpl.
    destruct (decide (k' ∈ keys new)) as [|Hk]; [done|].
    by destruct (filter_nil_not_elem_of _ _ (k', v) Hnil Hk).
  - intros Hsub. apply filter_none. intros [k v] Hin Hk. apply Hk, Hsub.
    apply list_elem_of_fmap. by exists (k, v).
Qed.

Lemma to_add_nil_iff current new :
  to_add current new = [] ↔ ∀ k, k ∈ keys new → k ∈ keys current.
Proof. apply (to_remove_nil_iff new current). Qed.

Lemma diff_nonempty_iff (c1 c2 : collection) :
  to_remove c1 c2 ≠ [] ↔ ∃ k, k ∈ keys c1 ∧ k ∉ keys c2.
Proof.
  unfold to_remove. split.
  - destruct (filter _ c1) as [|[k v] l] eqn:Hf; [done|]. intros _.
    assert ((k, v) ∈ filter (λ kv, kv.1 ∉ keys c2) c1) as Hin
      by (rewrite Hf; left).
    apply list_elem_of_filter in Hin as [Hk Hin]. exists k. split; [|done].
    apply list_elem_of_fmap. by exists (k, v).
  - intros (k & ([k' v] & -> & Hin)%list_elem_of_fmap & Hk) Hnil.
    by apply (filter_nil_not_elem_of _ _ (k', v) Hnil).
Qed.

(** C6: the differ flags removal exactly for the identities of [current]
    that are absent from [new], and addition exactly for the identities
    of [new] that are absent from [current]: it prints one line for each
    entry of the corresponding difference, in order, and its result is
    true iff that difference is not empty.  Against an empty other side
    every record is flagged. *)
Theorem differ_flags_set_differences (current new : collection) :
  NoDup (keys current) → NoDup (keys new) →
  (∃ removed,
     remove_unused_records current new
     = (Print ∘ Removing <$> values (to_remove current new), Ok removed) ∧
     (removed = true ↔ ∃ k, k ∈ keys current ∧ k ∉ keys new)) ∧
  (∃ added,
     add_new_records current new
     = (Print ∘ Adding <$> values (to_add current new), Ok added) ∧
     (added = true ↔ ∃ k, k ∈ keys new ∧ k ∉ keys current)) ∧
  (∀ k, k ∈ keys (to_remove current new) ↔ k ∈ keys current ∧ k ∉ keys new) ∧
  (∀ k, k ∈ keys (to_add current new) ↔ k ∈ keys new ∧ k ∉ keys current) ∧
  to_remove current [] = current ∧ to_add [] new = new.
Proof.
  intros Hnd1 Hnd2. split_and!.
  - eexists. split; [by apply remove_unused_records_spec|].
    by rewrite bool_decide_eq_true, diff_nonempty_iff.
  - eexists. split; [by apply add_new_records_spec|].
    rewrite bool_decide_eq_true. apply (diff_nonempty_iff new current).
  - intros k. unfold to_remove.
    pose proof (elem_of_keys_filter (λ k, k ∉ keys new) current k). tauto.
  - intros k. unfold to_add.
    pose proof (elem_of_keys_filter (λ k, k ∉ keys current) new k). tauto.
  - apply filter_all. intros kv _. apply not_elem_of_nil.
  - apply filter_all. intros kv _. apply not_elem_of_nil.
Qed.

Lemma differ_flags_set_differences_witness :
  NoDup (keys [(Fixture.id_www, Fixture.rec_www)]) ∧
  NoDup (keys [(Fixture.id_www', Fixture.rec_www');
               (Fixture.id_mail, Fixture.rec_mail)]) ∧
  ∃ removed,
    remove_unused_records [(Fixture.id_www, Fixture.rec_www)]
      [(Fixture.id_www', Fixture.rec_www'); (Fixture.id_mail, Fixture.rec_mail)]
    = (Print ∘ Removing <$> values
         (to_remove [(Fixture.id_www, Fixture.rec_www)]
            [(Fixture.id_www', Fixture.rec_www');
             (Fixture.id_mail, Fixture.rec_mail)]), Ok removed) ∧
    (removed = true ↔
     ∃ k, k ∈ keys [(Fixture.id_www, Fixture.rec_www)] ∧
          k ∉ keys [(Fixture.id_www', Fixture.rec_www');
                    (Fixture.id_mail, Fixture.rec_mail)]).
Proof.
  assert (NoDup (keys [(Fixture.id_www, Fixture.rec_www)])) as H1
    by by_compute.
  assert (NoDup (keys [(Fixture.id_www', Fixture.rec_www');
                       (Fixture.id_mail, Fixture.rec_mail)])) as H2
    by by_compute.
  split; [exact H1|]. split; [exact H2|].
  exact (proj1 (differ_flags_set_differences _ _ H1 H2)).
Defined.

(** The collections of a run in which the identities of the two sides
    coincide: nothing is flagged and the run ends after the diff. *)
Lemma do_import_same_keys net a config t current new :
  get_current net a config = (t, Ok current) → get_new a = Ok new →
  (∀ k, k ∈ keys current ↔ k ∈ keys new) →
  to_remove current new = [] ∧ to_add current new = [] ∧
  do_import net a config = (t, Ok tt).
Proof.
  intros Hcur Hnew Hkeys.
  assert (to_remove current new = []) as Hrem.
  { apply to_remove_nil_iff. intros k. apply Hkeys. }
  assert (to_add current new = []) as Hadd.
  { apply to_add_nil_iff. intros k. apply Hkeys. }
  split_and!; [done..|].
  destruct (do_import_run _ _ _ _ _ _ Hcur Hnew) as (c & _ & ->).
  unfold submits. rewrite Hrem, Hadd. simpl. by rewrite app_nil_r.
Qed.

Lemma remove_unused_records_subset (c1 c2 : collection) :
  (∀ k, k ∈ keys c1 → k ∈ keys c2) →
  remove_unused_records c1 c2 = ([], Ok false).
Proof.
  intros Hsub. unfold remove_unused_records.
  rewrite remove_unused_records_loop_spec by done.
  rewrite filter_none; [done|]. intros k Hk Hk'. by apply Hk', Hsub.
Qed.

Lemma add_new_records_subset (c1 c2 : collection) :
  (∀ k, k ∈ keys c2 → k ∈ keys c1) →
  add_new_records c1 c2 = ([], Ok false).
Proof.
  intros Hsub. unfold add_new_records.
  rewrite add_new_records_loop_spec by done.
  rewrite filter_none; [done|]. intros k Hk Hk'. by apply Hk', Hsub.
Qed.

Lemma do_import_same_keys_submissions net a config t current new :
  get_current net a config = (t, Ok current) → get_new a = Ok new →
  (∀ k, k ∈ keys current ↔ k ∈ keys new) →
  submissions (do_import net a config) = [].
Proof.
  intros Hcur Hnew Hkeys.
  destruct (do_import_same_keys _ _ _ _ _ _ Hcur Hnew Hkeys) as (_ & _ & Hrun).
  pose proof (get_current_submissions net a config) as Ht.
  unfold submissions in *. rewrite Hrun. by rewrite Hcur in Ht.
Qed.




(** C9: in a dry run no write call is made, whatever the diff holds;
    when the fetch and the load succeed the run prints the lines of the
    diff and ends normally. *)
Theorem dry_run_never_submits net a config :
  dryrun a = true →
  submissions (do_import net a config) = [] ∧
  ∀ t current new,
    get_current net a config = (t, Ok current) → get_new a = Ok new →
    do_import net a config
    = (t ++ (Print ∘ Removing <$> values (to_remove current new))
         ++ (Print ∘ Adding <$> values (to_add current new)), Ok tt).
Proof.
  intros Hdry.
  assert (∀ current new, submits a current new = false) as Hsub.
  { intros. unfold submits. by rewrite Hdry, andb_false_r. }
  split.
  - destruct (get_current net a config) as [t [current|e]] eqn:Hcur.
    + destruct (get_new a) as [new|e] eqn:Hnew.
      * destruct (do_import_submissions _ _ _ _ _ _ Hcur Hnew) as (c & _ & ->).
        by rewrite Hsub.
      * apply (do_import_submissions_Raise _ _ _ t e). right. by exists current.
    + apply (do_import_submissions_Raise _ _ _ t e). by left.
  - intros t current new Hcur Hnew.
    destruct (do_import_run _ _ _ _ _ _ Hcur Hnew) as (c & _ & ->).
    by rewrite Hsub, app_nil_r.
Qed.

Lemma dry_run_never_submits_witness :
  let a := Fixture.import true [Fixture.rec_www'; Fixture.rec_mail] in
  dryrun a = true ∧
  submissions (do_import Fixture.net_www a Fixture.config) = [] ∧
  do_import Fixture.net_www a Fixture.config
  = ([Post (sign Fixture.cred (get_hosts_data a));
      Print (Removing Fixture.rec_www);
      Print (Adding Fixture.rec_www'); Print (Adding Fixture.rec_mail)],
     Ok tt).
Proof.
  intros a. split; [reflexivity|]. split.
  - exact (proj1 (dry_run_never_submits Fixture.net_www a Fixture.config
                    eq_refl)).
  - exact (proj2 (dry_run_never_submits Fixture.net_www a Fixture.config
                    eq_refl)
             [Post (sign Fixture.cred (get_hosts_data a))]
             [(Fixture.id_www, Fixture.rec_www)]
             [(Fixture.id_www', Fixture.rec_www');
              (Fixture.id_mail, Fixture.rec_mail)]
             eq_refl eq_refl).
Defined.

(** A run with removals only, or with additions only, ends before the
    submission. *)
Lemma one_sided_diff_not_submitted net a config t current new :
  get_current net a config = (t, Ok current) → get_new a = Ok new →
  to_remove current new = [] ∨ to_add current new = [] →
  submissions (do_import net a config) = [].
Proof.
  intros Hcur Hnew Hside.
  destruct (do_import_submissions _ _ _ _ _ _ Hcur Hnew) as (c & _ & ->).
  unfold submits. destruct Hside as [-> | ->]; simpl; [done|].
  by rewrite andb_false_r.
Qed.

(** C1, at the full teardown: the provider holds one record and the
    document is empty; the removal is printed and no write call
    follows. *)
Theorem full_teardown_not_submitted :
  let a := Fixture.import false [] in
  get_current Fixture.net_www a Fixture.config
  = ([Post (sign Fixture.cred (get_hosts_data a))],
     Ok [(Fixture.id_www, Fixture.rec_www)]) ∧
  get_new a = Ok [] ∧
  to_remove [(Fixture.id_www, Fixture.rec_www)] []
  = [(Fixture.id_www, Fixture.rec_www)] ∧
  do_import Fixture.net_www a Fixture.config
  = ([Post (sign Fixture.cred (get_hosts_data a));
      Print (Removing Fixture.rec_www)], Ok tt) ∧
  submissions (do_import Fixture.net_www a Fixture.config) = [].
Proof. intros a. split_and!; reflexivity. Qed.

(** ** Export *)

Lemma clean_records_spec hosts records :
  clean_records (dict_of_attrib <$> hosts) = Ok records →
  Forall (λ r, ∃ k, dict_hash r = Ok k ∧ stringy k) records.
Proof.
  revert records. induction hosts as [|h hosts IH]; intros records; csimpl.
  - intros [= <-]. constructor.
  - destruct (clean_record (dict_of_attrib h)) as [r|] eqn:Hr; [|done]. simpl.
    destruct (clean_records (dict_of_attrib <$> hosts)) as [rs|]; [|done].
    simpl. intros [= <-]. constructor; [|by apply IH].
    apply clean_record_Ok_inv in Hr as (n & ty & t & _ & _ & _ & Hi).
    erewrite dict_hash_Ok.
    + eexists. split; [done|]. by eexists _, _, _.
    + rewrite Hi. unfold cleaned_field. by closed_decide.
    + rewrite Hi. unfold cleaned_field. by closed_decide.
Qed.

Lemma identity_lt_stringy k1 k2 :
  stringy k1 → stringy k2 → ∃ b, identity_lt k1 k2 = Ok b.
Proof.
  intros (t1 & n1 & j1 & ->) (t2 & n2 & j2 & ->). unfold identity_lt.
  repeat case_decide; simpl; by eexists.
Qed.

Lemma insert_sorted_stringy {A} (x : identity * A) l :
  stringy x.1 → Forall (λ y, stringy y.1) l →
  ∃ l', insert_sorted identity_lt x l = Ok l' ∧ l' ≡ₚ x :: l.
Proof.
  intros Hx. induction 1 as [|y l Hy Hl IH]; simpl; [by eexists|].
  destruct (identity_lt_stringy _ _ Hy Hx) as [[] ->]; simpl.
  - destruct IH as (l' & -> & Hl'). simpl. eexists. split; [done|].
    rewrite Hl'. apply Permutation_swap.
  - by eexists.
Qed.

Lemma sort_keyed_stringy {A} (l : list (identity * A)) :
  Forall (λ y, stringy y.1) l →
  ∃ l', sort_keyed identity_lt l = Ok l' ∧ l' ≡ₚ l.
Proof.
  induction 1 as [|x l Hx Hl IH]; simpl; [by eexists|].
  destruct IH as (l' & -> & Hl'). simpl.
  destruct (insert_sorted_stringy x l') as (l'' & -> & Hl''); [done| |].
  - by rewrite Hl'.
  - eexists. split; [done|]. by rewrite Hl'', Hl'.
Qed.

(** Sorting fetched records succeeds and permutes them. *)
Lemma sorted_fetched records :
  Forall (λ r, ∃ k, dict_hash r = Ok k ∧ stringy k) records →
  ∃ doc, sorted identity_lt dict_hash records = Ok doc ∧ doc ≡ₚ records.
Proof.
  intros Hrs. unfold sorted.
  assert (∃ l, decorate dict_hash records = Ok l ∧
               Forall (λ y : identity * record, stringy y.1) l) as (l & Hl & Hs).
  { induction Hrs as [|r rs (k & Hk & Hsk) _ (l & Hl & Hs)]; simpl.
    - eexists. split; [done|constructor].
    - rewrite Hk, Hl. simpl. eexists. split; [done|]. by constructor. }
  rewrite Hl. simpl.
  destruct (sort_keyed_stringy l Hs) as (l' & -> & Hl'). simpl.
  eexists. split; [done|].
  apply decorate_spec in Hl as [<- _]. by rewrite Hl'.
Qed.

Lemma get_records_current net a config t records :
  get_records net config (sld a) (tld a) = (t, Ok records) →
  get_current net a config = (t, collect records []) ∧
  ∃ hosts, clean_records (dict_of_attrib <$> hosts) = Ok records.
Proof.
  unfold get_current. intros Hrec. rewrite Hrec, bind_Ok. simpl.
  rewrite ?app_nil_r. split; [done|].
  rewrite get_records_run in Hrec. simpl in Hrec.
  destruct (credentials config) as [c|]; [|done].
  destruct (net _) as [hosts|]; [|done]. simpl in Hrec.
  exists hosts. congruence.
Qed.

(** C8: exporting the current records and loading the exported document
    unchanged as the desired set gives an empty diff against the
    current set: the export succeeds and dumps a permutation of the
    fetched records, both collections are built, neither side has an
    identity the other lacks, and the import run ends after the diff.
    The document is the list of records handed to [yaml.dump] and read
    back by [yaml.safe_load]. *)
Theorem export_import_round_trip net a config t records :
  get_records net config (sld a) (tld a) = (t, Ok records) →
  ∃ doc current new,
    do_export net a config = (t ++ [Dump doc], Ok tt) ∧
    doc ≡ₚ records ∧
    get_current net a config = (t, Ok current) ∧
    (∀ dry,
       let a' := {| sld := sld a; tld := tld a; dryrun := dry;
                    input_file := doc |} in
       get_new a' = Ok new ∧
       do_import net a' config = (t, Ok tt) ∧
       submissions (do_import net a' config) = []) ∧
    to_remove current new = [] ∧ to_add current new = [] ∧
    remove_unused_records current new = ([], Ok false) ∧
    add_new_records current new = ([], Ok false).
Proof.
  intros Hrec.
  destruct (get_records_current _ _ _ _ _ Hrec) as (Hcur & hosts & Hclean).
  apply clean_records_spec in Hclean.
  destruct (sorted_fetched _ Hclean) as (doc & Hdoc & Hperm).
  assert (∀ rs, rs ≡ₚ records → ∃ c, collect rs [] = Ok c) as Hcol.
  { intros rs Hrs.
    destruct (decorate_total rs) as [l Hl].
    - intros r Hr. rewrite Hrs in Hr.
      destruct (proj1 (Forall_forall _ _) Hclean _ Hr) as (k & Hk & _).
      by exists k.
    - exists (nub l). by apply collect_nil. }
  destruct (Hcol records) as [current Hcurrent]; [done|].
  destruct (Hcol doc) as [new Hnew]; [done|].
  rewrite Hcurrent in Hcur.
  assert (∀ k, k ∈ keys current ↔ k ∈ keys new) as Hkeys.
  { intros k.
    apply collect_Ok in Hcurrent as (_ & _ & _ & ->).
    apply collect_Ok in Hnew as (_ & _ & _ & ->).
    by setoid_rewrite Hperm. }
  exists doc, current, new.
  assert (∀ dry,
    let a' := {| sld := sld a; tld := tld a; dryrun := dry;
                 input_file := doc |} in
    get_current net a' config = (t, Ok current)) as Hcur'.
  { intros dry a'. by rewrite get_current_run in *. }
  split_and!.
  - unfold do_export. rewrite Hrec, bind_Ok, Hdoc. done.
  - done.
  - done.
  - intros dry a'. split_and!; [done| |].
    + by apply (do_import_same_keys net a' config t current new).
    + by apply (do_import_same_keys_submissions net a' config t current new).
  - apply to_remove_nil_iff. intros k. apply Hkeys.
  - apply to_add_nil_iff. intros k. apply Hkeys.
  - apply remove_unused_records_subset. intros k. apply Hkeys.
  - apply add_new_records_subset. intros k. apply Hkeys.
Qed.

Lemma export_import_round_trip_witness :
  let a := Fixture.import false [] in
  let t := [Post (sign Fixture.cred (get_hosts_data a))] in
  get_records Fixture.net_www Fixture.config (sld a) (tld a)
  = (t, Ok [Fixture.rec_www]) ∧
  ∃ doc current new,
    do_export Fixture.net_www a Fixture.config = (t ++ [Dump doc], Ok tt) ∧
    doc ≡ₚ [Fixture.rec_www] ∧
    get_current Fixture.net_www a Fixture.config = (t, Ok current) ∧
    (∀ dry,
       let a' := {| sld := sld a; tld := tld a; dryrun := dry;
                    input_file := doc |} in
       get_new a' = Ok new ∧
       do_import Fixture.net_www a' Fixture.config = (t, Ok tt) ∧
       submissions (do_import Fixture.net_www a' Fixture.config) = []) ∧
    to_remove current new = [] ∧ to_add current new = [] ∧
    remove_unused_records current new = ([], Ok false) ∧
    add_new_records current new = ([], Ok false).
Proof.
  intros a t.
  assert (get_records Fixture.net_www Fixture.config (sld a) (tld a)
          = (t, Ok [Fixture.rec_www])) as H1 by reflexivity.
  split; [exact H1|].
  exact (export_import_round_trip Fixture.net_www a Fixture.config t
           [Fixture.rec_www] H1).
Defined.

(** ** Elision of the default TTL and of a stray MXPref *)

Lemma dict_of_attrib_insert (h : host) k s :
  dict_of_attrib (<[k := s]> h) = <[k := VStr s]> (dict_of_attrib h).
Proof. unfold dict_of_attrib. by rewrite fmap_insert. Qed.

Lemma dict_of_attrib_delete (h : host) k :
  dict_of_attrib (delete k h) = delete k (dict_of_attrib h).
Proof. unfold dict_of_attrib. by rewrite fmap_delete. Qed.

Lemma dict_of_attrib_lookup (h : host) k :
  dict_of_attrib h !! k = VStr <$> h !! k.
Proof. apply lookup_fmap. Qed.

(** The identity of a canonical record exists. *)
Lemma cleaned_dict_hash (r r0 : record) name type_ ttl :
  (∀ i, r !! i = cleaned_field r0 name type_ ttl i) →
  ∃ k, dict_hash r = Ok k.
Proof.
  intros Hi. apply dict_hash_is_Ok; rewrite Hi; unfold cleaned_field;
    by closed_decide.
Qed.

(** The fields of a canonical record other than [key] do not depend on
    the field [key] of the raw record. *)
Lemma cleaned_field_other (r1 r2 : record) name type_ ttl1 ttl2 key i :
  i ≠ key → (key = "TTL" ∨ ttl1 = ttl2) →
  (∀ j, j ≠ key → r1 !! j = r2 !! j) →
  cleaned_field r1 name type_ ttl1 i = cleaned_field r2 name type_ ttl2 i.
Proof.
  intros Hne Httl Hr. unfold cleaned_field.
  rewrite (Hr i Hne).
  destruct (decide (i = "RecordType")); [done|].
  destruct (decide (i = "HostName")); [done|].
  destruct (decide (i ∈ stripped)); [done|].
  destruct (decide (i = "MXPref")); [done|].
  destruct (decide (i = "TTL")) as [->|]; [|done].
  destruct Httl as [->| ->]; done.
Qed.

(** C4, as the code has it: a fetched host whose TTL is ["1800"] is
    filed under the identity of the otherwise identical record without
    a TTL, and under another identity for any other TTL; a record of the
    desired-state document is filed as it is written, so any TTL it
    carries, the default included, is part of its identity. *)
Theorem ttl_elision (h : host) (n ty t : string) (d : record) (v : value) :
  h !! "Name" = Some n → h !! "Type" = Some ty → t ≠ "1800" →
  is_Some (d !! "HostName") → is_Some (d !! "RecordType") →
  (∃ r rt k kt,
     clean_record (dict_of_attrib (<["TTL" := "1800"]> h)) = Ok r ∧
     clean_record (dict_of_attrib (<["TTL" := t]> h)) = Ok rt ∧
     rt !! "TTL" = Some (VStr t) ∧ r = delete "TTL" rt ∧
     dict_hash r = Ok k ∧ dict_hash rt = Ok kt ∧ k ≠ kt) ∧
  (∃ k k',
     dict_hash (<["TTL" := v]> d) = Ok k ∧
     dict_hash (delete "TTL" d) = Ok k' ∧ k ≠ k').
Proof.
  intros Hn Hty Ht Hdn Hdt. split.
  - destruct (clean_host (<["TTL" := "1800"]> h) n ty "1800")
      as (r & Hr & Hri); [by rewrite lookup_insert_ne..|by rewrite lookup_insert_eq|].
    destruct (clean_host (<["TTL" := t]> h) n ty t)
      as (rt & Hrt & Hrti); [by rewrite lookup_insert_ne..|by rewrite lookup_insert_eq|].
    destruct (cleaned_dict_hash _ _ _ _ _ Hri) as [k Hk].
    destruct (cleaned_dict_hash _ _ _ _ _ Hrti) as [kt Hkt].
    assert (rt !! "TTL" = Some (VStr t)) as Httl.
    { rewrite Hrti. unfold cleaned_field. closed_decide.
      rewrite decide_False by congruence.
      by rewrite dict_of_attrib_insert, lookup_insert_eq. }
    assert (r !! "TTL" = None) as Hnone.
    { rewrite Hri. unfold cleaned_field. by closed_decide. }
    exists r, rt, k, kt. split_and!; [done..| |done|done|].
    + apply map_eq. intros i. destruct (decide (i = "TTL")) as [->|Hi].
      * by rewrite lookup_delete_eq.
      * rewrite lookup_delete_ne, Hri, Hrti by done.
        apply (cleaned_field_other _ _ _ _ _ _ "TTL"); [done|by left|].
        intros j Hj. by rewrite !dict_of_attrib_insert, !lookup_insert_ne.
    + apply (dict_hash_ne r rt); [done..|]. intros ->. congruence.
  - destruct (dict_hash_is_Ok (<["TTL" := v]> d)) as [k Hk];
      [by rewrite lookup_insert_ne..|].
    destruct (dict_hash_is_Ok (delete "TTL" d)) as [k' Hk'];
      [by rewrite lookup_delete_ne..|].
    exists k, k'. split_and!; [done..|].
    apply (dict_hash_ne _ _ _ _ Hk Hk'). intros Heq.
    apply (f_equal (λ m : record, m !! "TTL")) in Heq.
    by rewrite lookup_insert_eq, lookup_delete_eq in Heq.
Qed.

Lemma ttl_elision_witness :
  Fixture.host_www !! "Name" = Some "www" ∧
  Fixture.host_www !! "Type" = Some "A" ∧ "3600" ≠ "1800" ∧
  is_Some (Fixture.rec_www !! "HostName") ∧
  is_Some (Fixture.rec_www !! "RecordType") ∧
  (∃ r rt k kt,
     clean_record (dict_of_attrib (<["TTL" := "1800"]> Fixture.host_www)) = Ok r ∧
     clean_record (dict_of_attrib (<["TTL" := "3600"]> Fixture.host_www)) = Ok rt ∧
     rt !! "TTL" = Some (VStr "3600") ∧ r = delete "TTL" rt ∧
     dict_hash r = Ok k ∧ dict_hash rt = Ok kt ∧ k ≠ kt) ∧
  (∃ k k',
     dict_hash (<["TTL" := VInt 1800]> Fixture.rec_www) = Ok k ∧
     dict_hash (delete "TTL" Fixture.rec_www) = Ok k' ∧ k ≠ k').
Proof.
  assert (Fixture.host_www !! "Name" = Some "www") as H1 by reflexivity.
  assert (Fixture.host_www !! "Type" = Some "A") as H2 by reflexivity.
  assert ("3600" ≠ "1800") as H3 by discriminate.
  assert (is_Some (Fixture.rec_www !! "HostName")) as H4 by (by eexists).
  assert (is_Some (Fixture.rec_www !! "RecordType")) as H5 by (by eexists).
  split_and!; [exact H1|exact H2|exact H3|exact H4|exact H5|..];
    apply (ttl_elision Fixture.host_www "www" "A" "3600" Fixture.rec_www
             (VInt 1800) H1 H2 H3 H4 H5).
Defined.

(** Against the specification, for a record of the desired-state document: with the
    default TTL written out it is filed under another identity than
    without a TTL (as an integer or as a string), so that the provider's
    record with the default TTL no longer matches it. *)
Lemma document_ttl_not_elided :
  dict_hash Fixture.rec_www = Ok Fixture.id_www ∧
  dict_hash (<["TTL" := VInt 1800]> Fixture.rec_www) ≠ Ok Fixture.id_www ∧
  dict_hash (<["TTL" := VStr "1800"]> Fixture.rec_www) ≠ Ok Fixture.id_www ∧
  (r ← clean_record (dict_of_attrib Fixture.host_www); dict_hash r)
  = Ok Fixture.id_www.
Proof. split_and!; vm_compute; (reflexivity || discriminate). Qed.

(** C5, as the code has it: for a fetched host that is not of type MX a
    stray [MXPref] leaves the canonical record, hence the identity,
    unchanged; for a fetched MX host [MXPref] is kept and two values of
    it, or its presence and absence, give two identities; a record of
    the desired-state document is filed as it is written, so an [MXPref]
    it carries is part of its identity whatever its type. *)
Theorem mx_pref_conditional (h : host) (n ty t p p' : string)
    (d : record) (v : value) :
  h !! "Name" = Some n → h !! "Type" = Some ty → h !! "TTL" = Some t →
  p ≠ p' →
  is_Some (d !! "HostName") → is_Some (d !! "RecordType") →
  (ty ≠ "MX" →
   ∃ r k,
     clean_record (dict_of_attrib (<["MXPref" := p]> h)) = Ok r ∧
     clean_record (dict_of_attrib (delete "MXPref" h)) = Ok r ∧
     r !! "MXPref" = None ∧ dict_hash r = Ok k) ∧
  (ty = "MX" →
   ∃ r r' r0 k k' k0,
     clean_record (dict_of_attrib (<["MXPref" := p]> h)) = Ok r ∧
     clean_record (dict_of_attrib (<["MXPref" := p']> h)) = Ok r' ∧
     clean_record (dict_of_attrib (delete "MXPref" h)) = Ok r0 ∧
     r !! "MXPref" = Some (VStr p) ∧
     dict_hash r = Ok k ∧ dict_hash r' = Ok k' ∧ dict_hash r0 = Ok k0 ∧
     k ≠ k' ∧ k ≠ k0) ∧
  (∃ k k0,
     dict_hash (<["MXPref" := v]> d) = Ok k ∧
     dict_hash (delete "MXPref" d) = Ok k0 ∧ k ≠ k0).
Proof.
  intros Hn Hty Ht Hp Hdn Hdt.
  destruct (clean_host (<["MXPref" := p]> h) n ty t)
    as (r & Hr & Hri); [by rewrite lookup_insert_ne..|].
  destruct (clean_host (<["MXPref" := p']> h) n ty t)
    as (r' & Hr' & Hri'); [by rewrite lookup_insert_ne..|].
  destruct (clean_host (delete "MXPref" h) n ty t)
    as (r0 & Hr0 & Hri0); [by rewrite lookup_delete_ne..|].
  destruct (cleaned_dict_hash _ _ _ _ _ Hri) as [k Hk].
  destruct (cleaned_dict_hash _ _ _ _ _ Hri') as [k' Hk'].
  destruct (cleaned_dict_hash _ _ _ _ _ Hri0) as [k0 Hk0].
  split_and!.
  - intros Hmx.
    assert (r !! "MXPref" = None) as Hnone.
    { rewrite Hri. unfold cleaned_field. closed_decide.
      rewrite decide_False; [done|]. congruence. }
    assert (r0 = r) as ->.
    { apply map_eq. intros i. destruct (decide (i = "MXPref")) as [->|Hi].
      - rewrite Hnone, Hri0. unfold cleaned_field. closed_decide.
        rewrite decide_False; [done|]. congruence.
      - rewrite Hri, Hri0.
        apply (cleaned_field_other _ _ _ _ _ _ "MXPref"); [done|by right|].
        intros j Hj. rewrite dict_of_attrib_insert, dict_of_attrib_delete.
        by rewrite lookup_insert_ne, lookup_delete_ne. }
    by exists r, k.
  - intros ->.
    assert (∀ (q : string) (rq : record),
      (∀ i, rq !! i = cleaned_field (dict_of_attrib (<["MXPref" := q]> h))
                        (VStr n) (VStr "MX") (VStr t) i) →
      rq !! "MXPref" = Some (VStr q)) as Hmx.
    { intros q rq Hi. rewrite Hi. unfold cleaned_field. closed_decide.
      by rewrite dict_of_attrib_insert, lookup_insert_eq. }
    assert (r0 !! "MXPref" = None) as Hnone.
    { rewrite Hri0. unfold cleaned_field. closed_decide.
      by rewrite dict_of_attrib_delete, lookup_delete_eq. }
    exists r, r', r0, k, k', k0. split_and!; [done..| | | | | |]; try done.
    + by apply Hmx.
    + apply (dict_hash_ne r r'); [done..|]. intros ->.
      pose proof (Hmx p r' Hri) as H1. pose proof (Hmx p' r' Hri') as H2.
      congruence.
    + apply (dict_hash_ne r r0); [done..|]. intros ->.
      rewrite (Hmx p r0 Hri) in Hnone. done.
  - destruct (dict_hash_is_Ok (<["MXPref" := v]> d)) as [kd Hkd];
      [by rewrite lookup_insert_ne..|].
    destruct (dict_hash_is_Ok (delete "MXPref" d)) as [kd' Hkd'];
      [by rewrite lookup_delete_ne..|].
    exists kd, kd'. split_and!; [done..|].
    apply (dict_hash_ne _ _ _ _ Hkd Hkd'). intros Heq.
    apply (f_equal (λ m : record, m !! "MXPref")) in Heq.
    by rewrite lookup_insert_eq, lookup_delete_eq in Heq.
Qed.

Lemma mx_pref_conditional_witness :
  Fixture.host_www !! "Name" = Some "www" ∧
  Fixture.host_www !! "Type" = Some "A" ∧
  Fixture.host_www !! "TTL" = Some "1800" ∧ "10" ≠ "20" ∧
  is_Some (Fixture.rec_www !! "HostName") ∧
  is_Some (Fixture.rec_www !! "RecordType") ∧
  ("A" ≠ "MX" →
   ∃ r k,
     clean_record (dict_of_attrib (<["MXPref" := "10"]> Fixture.host_www))
     = Ok r ∧
     clean_record (dict_of_attrib (delete "MXPref" Fixture.host_www)) = Ok r ∧
     r !! "MXPref" = None ∧ dict_hash r = Ok k).
Proof.
  assert (Fixture.host_www !! "Name" = Some "www") as H1 by reflexivity.
  assert (Fixture.host_www !! "Type" = Some "A") as H2 by reflexivity.
  assert (Fixture.host_www !! "TTL" = Some "1800") as H3 by reflexivity.
  assert ("10" ≠ "20") as H4 by discriminate.
  assert (is_Some (Fixture.rec_www !! "HostName")) as H5 by (by eexists).
  assert (is_Some (Fixture.rec_www !! "RecordType")) as H6 by (by eexists).
  split_and!; [exact H1|exact H2|exact H3|exact H4|exact H5|exact H6|].
  exact (proj1 (mx_pref_conditional Fixture.host_www "www" "A" "1800" "10" "20"
                  Fixture.rec_www (VStr "10") H1 H2 H3 H4 H5 H6)).
Defined.

(** Against the specification, for a record of the desired-state document: an A
    record that carries a stray [MXPref] is filed under another identity
    than the same record without it. *)
Lemma document_mx_pref_not_elided :
  dict_hash Fixture.rec_www = Ok Fixture.id_www ∧
  Fixture.rec_www !! "RecordType" = Some (VStr "A") ∧
  dict_hash (<["MXPref" := VStr "10"]> Fixture.rec_www) ≠ Ok Fixture.id_www ∧
  dict_hash (<["MXPref" := VInt 10]> Fixture.rec_www) ≠ Ok Fixture.id_www.
Proof. split_and!; vm_compute; (reflexivity || discriminate). Qed.

(** ** Duplicates in the desired-state document *)

Lemma filter_ne_fmap {A B} `{EqDecision A, EqDecision B} (f : A → B)
    (l : list A) x :
  (∀ y, y ∈ l → f y = f x → y = x) →
  filter (λ z, z ≠ f x) (f <$> l) = f <$> filter (λ y, y ≠ x) l.
Proof.
  induction l as [|y l IH]; intros Hinj; csimpl; [done|].
  rewrite !filter_cons, IH by (intros; apply Hinj; [by right|done]).
  destruct (decide (y = x)) as [->|Hne].
  - rewrite decide_False by (by intros []). by rewrite decide_False by (by intros []).
  - rewrite decide_True; [by rewrite decide_True|].
    intros Heq. apply Hne, Hinj; [by left|done].
Qed.

Lemma nub_fmap_inj_on {A B} `{EqDecision A, EqDecision B} (f : A → B)
    (l : list A) :
  (∀ x y, x ∈ l → y ∈ l → f x = f y → x = y) →
  f <$> nub l = nub (f <$> l).
Proof.
  induction l as [|x l IH]; intros Hinj; csimpl; [done|].
  rewrite <-IH by (intros y z ??; apply Hinj; by right).
  f_equal. symmetry. apply filter_ne_fmap.
  intros y Hy Heq. apply Hinj; [right; by apply nub_elem_of|by left|done].
Qed.

Lemma well_keyed_values_nub (l : collection) :
  well_keyed l → values (nub l) = nub (values l).
Proof.
  intros Hwk. apply nub_fmap_inj_on. intros [k1 r1] [k2 r2] H1 H2 Heq.
  simpl in Heq. subst r2.
  pose proof (proj1 (Forall_forall _ _) Hwk _ H1) as Hk1.
  pose proof (proj1 (Forall_forall _ _) Hwk _ H2) as Hk2.
  simpl in *. congruence.
Qed.

(** A document whose records all have a name and a type is loaded, into
    the first occurrences of its records. *)
Lemma get_new_total (a : args) :
  (∀ r, r ∈ input_file a →
        is_Some (r !! "HostName") ∧ is_Some (r !! "RecordType")) →
  ∃ new, get_new a = Ok new ∧ values new = nub (input_file a).
Proof.
  intros Hdoc. destruct (decorate_total (input_file a)) as [l Hl].
  { intros r [??]%Hdoc. by apply dict_hash_is_Ok. }
  exists (nub l). unfold get_new. split; [by apply collect_nil|].
  apply decorate_spec in Hl as [<- Hwk]. by apply well_keyed_values_nub.
Qed.

Lemma get_new_values (a : args) new :
  get_new a = Ok new → values new = nub (input_file a).
Proof.
  unfold get_new. intros Hnew.
  destruct (decorate dict_hash (input_file a)) as [l|e] eqn:Hl.
  - rewrite (collect_nil _ _ Hl) in Hnew. injection Hnew as <-.
    apply decorate_spec in Hl as [<- Hwk]. by apply well_keyed_values_nub.
  - by rewrite (collect_Raise _ _ _ Hl) in Hnew.
Qed.

Lemma filter_unique {A} (P : A → Prop) `{!∀ x, Decision (P x)} (l : list A) x :
  NoDup l → x ∈ l → P x → (∀ y, y ∈ l → P y → y = x) → filter P l = [x].
Proof.
  induction 1 as [|y l Hy Hnd IH]; intros Hin HP Huniq.
  - by apply elem_of_nil in Hin.
  - apply elem_of_cons in Hin as [->|Hin].
    + rewrite filter_cons_True by done. f_equal. apply filter_none.
      intros z Hz HPz. apply Hy. rewrite <-(Huniq z); [done|by right|done].
    + rewrite filter_cons_False.
      * apply IH; [done..|]. intros z Hz. apply Huniq. by right.
      * intros HPy. apply Hy. rewrite (Huniq y); [done|by left|done].
Qed.

(** The provider is called before the document is looked at. *)
Lemma do_import_starts_with_fetch net a config c :
  credentials config = Ok c →
  ∃ t res,
    do_import net a config = (Post (sign c (get_hosts_data a)) :: t, res).
Proof.
  intros Hc. unfold do_import. rewrite get_current_run, Hc.
  unfold mbind at 1, M_bind. simpl.
  destruct (net _ ≫= _); by eexists _, _.
Qed.

(** ** Assignment overwrites *)

(** After [c[k] = v] the dict holds [v] under [k], whatever it held
    before, and the other keys are untouched. *)
Lemma lookup_item_setitem k v c : lookup_item k (setitem k v c) = Some v.
Proof.
  induction c as [|[k' v'] c IH]; simpl.
  - by rewrite decide_True.
  - destruct (decide (k = k')) as [->|Hne]; simpl.
    + by rewrite decide_True.
    + by rewrite decide_False.
Qed.

Lemma lookup_item_setitem_ne k k' v c :
  k ≠ k' → lookup_item k' (setitem k v c) = lookup_item k' c.
Proof.
  intros Hne. induction c as [|[k0 v0] c IH]; simpl.
  - by rewrite decide_False.
  - destruct (decide (k = k0)) as [->|Hne0]; simpl.
    + by rewrite !decide_False.
    + destruct (decide (k' = k0)); [done|]. apply IH.
Qed.

(** The comprehension leaves under every identity the last record of
    the list that has it, over whatever the dict held under it. *)
Lemma collect_lookup_last rs acc new k :
  collect rs acc = Ok new →
  lookup_item k new
  = match last (filter (λ r, dict_hash r = Ok k) rs) with
    | Some r => Some r
    | None => lookup_item k acc
    end.
Proof.
  revert acc. induction rs as [|r rs IH]; intros acc; simpl.
  - by intros [= <-].
  - destruct (dict_hash r) as [k0|] eqn:Hk0; simpl; [|done].
    intros Hnew. rewrite (IH _ Hnew).
    destruct (decide (k0 = k)) as [->|Hne].
    + rewrite filter_cons_True by done. rewrite last_cons.
      destruct (last (filter _ rs)); [done|]. apply lookup_item_setitem.
    + rewrite filter_cons_False by congruence.
      destruct (last (filter _ rs)); [done|]. by apply lookup_item_setitem_ne.
Qed.

Lemma collect_total rs l acc :
  decorate dict_hash rs = Ok l → ∃ new, collect rs acc = Ok new.
Proof.
  revert l acc. induction rs as [|r rs IH]; intros l acc; simpl.
  - by eexists.
  - destruct (dict_hash r) as [k|]; simpl; [|done].
    destruct (decorate dict_hash rs) as [l'|] eqn:Hl'; simpl; [|done].
    intros _. by apply (IH l').
Qed.

(** ** Failures of the load *)

Lemma dict_hash_Raise_KeyError (r : record) e :
  dict_hash r = Raise e → e = KeyError "HostName" ∨ e = KeyError "RecordType".
Proof.
  unfold dict_hash, pop, getitem.
  destruct (r !! "HostName"); simpl; [|intros [= <-]; by left].
  destruct (delete "HostName" r !! "RecordType"); simpl; [done|].
  intros [= <-]. by right.
Qed.

Lemma collect_Raise_inv rs acc e :
  collect rs acc = Raise e → ∃ r, r ∈ rs ∧ dict_hash r = Raise e.
Proof.
  revert acc. induction rs as [|r rs IH]; intros acc; simpl; [done|].
  destruct (dict_hash r) as [k|e'] eqn:Hk; simpl.
  - intros (r' & Hr' & He)%IH. exists r'. split; [by right|done].
  - intros [= <-]. exists r. split; [by left|done].
Qed.

(** A document that cannot be loaded ends the run after the read call:
    the provider is read first. *)
Lemma do_import_load_fails_after_fetch net a config c e :
  credentials config = Ok c → get_new a = Raise e →
  ∃ e', do_import net a config
        = ([Post (sign c (get_hosts_data a))], Raise e').
Proof.
  intros Hc Hnew. unfold do_import.
  pose proof (get_current_run net a config) as Hcur. rewrite Hc in Hcur.
  rewrite Hcur. destruct (_ ≫= _) as [current|e'].
  - rewrite bind_Ok, Hnew. simpl. by eexists.
  - rewrite bind_Raise. by eexists.
Qed.

(** C2, as the code has it: there is no duplicate check.  A document in
    which two records canonicalize to the same identity is loaded
    without an error if all its records have a host name and a record
    type: the two records are equal and the identity is one key of the
    collection.  If the load fails, it is with the [KeyError] of a
    missing field.  And the document is loaded after the provider was
    read: the read call is the first event of the run, also when the
    document cannot be loaded. *)
Theorem duplicates_load_without_error (a : args) (i j : nat) r1 r2 k :
  i ≠ j → input_file a !! i = Some r1 → input_file a !! j = Some r2 →
  dict_hash r1 = Ok k → dict_hash r2 = Ok k →
  ((∀ r, r ∈ input_file a →
         is_Some (r !! "HostName") ∧ is_Some (r !! "RecordType")) →
   ∃ new, get_new a = Ok new ∧ NoDup (keys new) ∧ k ∈ keys new ∧
          lookup_item k new = Some r1 ∧ r1 = r2) ∧
  (∀ e, get_new a = Raise e →
        e = KeyError "HostName" ∨ e = KeyError "RecordType") ∧
  (∀ net config c, credentials config = Ok c →
     (∃ t res,
        do_import net a config
        = (Post (sign c (get_hosts_data a)) :: t, res)) ∧
     (∀ e, get_new a = Raise e →
        ∃ e', do_import net a config
              = ([Post (sign c (get_hosts_data a))], Raise e'))).
Proof.
  intros _ Hi Hj Hk1 Hk2. split_and!.
  - intros Hdoc. destruct (get_new_total a Hdoc) as (new & Hnew & _).
    exists new. pose proof Hnew as Hnew'.
    apply collect_Ok in Hnew' as (Hwk & Hnd & _ & Hkeys).
    assert (k ∈ keys new) as Hin.
    { apply Hkeys. exists r1. split; [|done]. by eapply list_elem_of_lookup_2. }
    split_and!; [done..| |by apply (dict_hash_inj _ _ k)].
    apply lookup_item_elem_of; [done|]. by apply well_keyed_elem_of.
  - intros e (r & _ & Hr)%collect_Raise_inv.
    by apply (dict_hash_Raise_KeyError r).
  - intros net config c Hc. split.
    + by apply do_import_starts_with_fetch.
    + intros e. by apply do_import_load_fails_after_fetch.
Qed.

Lemma duplicates_load_without_error_witness :
  let a := Fixture.import false [Fixture.rec_www; Fixture.rec_mail;
                                 Fixture.rec_www] in
  (0 ≠ 2)%nat ∧ input_file a !! 0%nat = Some Fixture.rec_www ∧
  input_file a !! 2%nat = Some Fixture.rec_www ∧
  dict_hash Fixture.rec_www = Ok Fixture.id_www ∧
  (∀ r, r ∈ input_file a →
        is_Some (r !! "HostName") ∧ is_Some (r !! "RecordType")) ∧
  ∃ new, get_new a = Ok new ∧ NoDup (keys new) ∧ Fixture.id_www ∈ keys new ∧
         lookup_item Fixture.id_www new = Some Fixture.rec_www ∧
         Fixture.rec_www = Fixture.rec_www.
Proof.
  intros a.
  assert ((0 ≠ 2)%nat) as H0 by lia.
  assert (input_file a !! 0%nat = Some Fixture.rec_www) as H1 by reflexivity.
  assert (input_file a !! 2%nat = Some Fixture.rec_www) as H2 by reflexivity.
  assert (dict_hash Fixture.rec_www = Ok Fixture.id_www) as H3
    by reflexivity.
  assert (∀ r, r ∈ input_file a →
            is_Some (r !! "HostName") ∧ is_Some (r !! "RecordType")) as H4.
  { intros r Hr. simpl in Hr.
    repeat (apply elem_of_cons in Hr as [->|Hr]; [by split; eexists|]).
    destruct (not_elem_of_nil _ Hr). }
  split_and!; [exact H0|exact H1|exact H2|exact H3|exact H4|].
  exact (proj1 (duplicates_load_without_error a 0 2 Fixture.rec_www
                  Fixture.rec_www Fixture.id_www H0 H1 H2 H3 H3) H4).
Defined.

(** Against the specification, on a document that repeats a record: the load
    returns a collection, and the run has already called the provider
    when the document is loaded. *)
Lemma duplicate_records_are_loaded :
  let a := Fixture.import false [Fixture.rec_www; Fixture.rec_www] in
  dict_hash Fixture.rec_www = Ok Fixture.id_www ∧
  get_new a = Ok [(Fixture.id_www, Fixture.rec_www)] ∧
  (∀ e, get_new a ≠ Raise e) ∧
  do_import Fixture.net_empty a Fixture.config
  = ([Post (sign Fixture.cred (get_hosts_data a));
      Print (Adding Fixture.rec_www)], Ok tt).
Proof.
  intros a.
  assert (get_new a = Ok [(Fixture.id_www, Fixture.rec_www)]) as Hnew
    by reflexivity.
  split_and!; try reflexivity.
  intros e. rewrite Hnew. discriminate.
Qed.

(** C10, with the precondition the code needs: a document whose records
    all have a name and a type is loaded without an error whether or
    not it repeats an identity.  Later entries overwrite earlier ones:
    the comprehension leaves under every identity of the document the
    last record that has it, also over another record that the dict
    held under this identity before.  The collection holds every
    identity once, and the records the plan is built from
    ([values new]) contain exactly one record per identity of the
    document. *)
Theorem duplicates_keep_last (a : args) :
  (∀ r, r ∈ input_file a →
        is_Some (r !! "HostName") ∧ is_Some (r !! "RecordType")) →
  (∀ acc, ∃ new,
     collect (input_file a) acc = Ok new ∧
     ∀ r k, last (filter (λ r, dict_hash r = Ok k) (input_file a)) = Some r →
            lookup_item k new = Some r) ∧
  ∃ new,
    get_new a = Ok new ∧ NoDup (keys new) ∧
    (∀ k, lookup_item k new
          = last (filter (λ r, dict_hash r = Ok k) (input_file a))) ∧
    (∀ r k, r ∈ input_file a → dict_hash r = Ok k →
            filter (λ r', dict_hash r' = Ok k) (values new) = [r]).
Proof.
  intros Hdoc. split.
  - intros acc. destruct (decorate_total (input_file a)) as [l Hl].
    { intros r [??]%Hdoc. by apply dict_hash_is_Ok. }
    destruct (collect_total _ _ acc Hl) as [new Hnew]. exists new.
    split; [done|]. intros r k Hlast.
    by rewrite (collect_lookup_last _ _ _ k Hnew), Hlast.
  - destruct (get_new_total a Hdoc) as (new & Hnew & Hvalues).
    exists new. pose proof Hnew as Hnew'.
    apply collect_Ok in Hnew' as (Hwk & Hnd & Hvals & Hkeys).
    split_and!; [done..| |].
    + intros k. rewrite (collect_lookup_last _ _ _ k Hnew).
      by destruct (last _).
    + intros r k Hr Hk. apply filter_unique; [| |done|].
      * rewrite Hvalues. apply NoDup_nub.
      * by apply Hvals.
      * intros r' _ Hk'. by apply (dict_hash_inj _ _ k).
Qed.

Lemma duplicates_keep_last_witness :
  let a := Fixture.import false [Fixture.rec_www; Fixture.rec_mail;
                                 Fixture.rec_www] in
  (∀ r, r ∈ input_file a →
        is_Some (r !! "HostName") ∧ is_Some (r !! "RecordType")) ∧
  (∃ new,
     collect (input_file a) [(Fixture.id_www, Fixture.rec_www')] = Ok new ∧
     lookup_item Fixture.id_www new = Some Fixture.rec_www) ∧
  ∃ new,
    get_new a = Ok new ∧ NoDup (keys new) ∧
    (∀ k, lookup_item k new
          = last (filter (λ r, dict_hash r = Ok k) (input_file a))) ∧
    (∀ r k, r ∈ input_file a → dict_hash r = Ok k →
            filter (λ r', dict_hash r' = Ok k) (values new) = [r]).
Proof.
  intros a.
  assert (∀ r, r ∈ input_file a →
            is_Some (r !! "HostName") ∧ is_Some (r !! "RecordType")) as H.
  { intros r Hr. simpl in Hr.
    repeat (apply elem_of_cons in Hr as [->|Hr]; [by split; eexists|]).
    destruct (not_elem_of_nil _ Hr). }
  split; [exact H|]. split; [|exact (proj2 (duplicates_keep_last a H))].
  destruct (proj1 (duplicates_keep_last a H)
              [(Fixture.id_www, Fixture.rec_www')]) as (new & Hnew & Hlast).
  exists new. split; [exact Hnew|].
  apply (Hlast Fixture.rec_www Fixture.id_www). reflexivity.
Defined.

(** Without the precondition, against C10 as it is worded: a document
    that repeats a record and holds a record without a host name is not
    loaded; the run ends with [KeyError] after the read call, and nothing
    is submitted. *)
Lemma duplicates_beside_a_malformed_record :
  let a := Fixture.import false [Fixture.rec_www; Fixture.rec_www; ∅] in
  input_file a !! 0%nat = Some Fixture.rec_www ∧
  input_file a !! 1%nat = Some Fixture.rec_www ∧
  dict_hash Fixture.rec_www = Ok Fixture.id_www ∧
  get_new a = Raise (KeyError "HostName") ∧
  do_import Fixture.net_empty a Fixture.config
  = ([Post (sign Fixture.cred (get_hosts_data a))],
     Raise (KeyError "HostName")) ∧
  submissions (do_import Fixture.net_empty a Fixture.config) = [].
Proof. intros a. split_and!; reflexivity. Qed.

(** ** The submitted request *)

(** The write call of a run, when there is one, carries the data built
    from the desired collection. *)
Lemma do_import_submitted net a config request :
  Post request ∈ submissions (do_import net a config) →
  ∃ c new, credentials config = Ok c ∧ get_new a = Ok new ∧
           request = sign c (set_hosts_data a new).
Proof.
  destruct (get_current net a config) as [t [current|e]] eqn:Hcur.
  - destruct (get_new a) as [new|e] eqn:Hnew.
    + destruct (do_import_submissions _ _ _ _ _ _ Hcur Hnew) as (c & Hc & ->).
      destruct (submits a current new); [|by intros ?%elem_of_nil].
      intros [= ->]%list_elem_of_singleton. by exists c, new.
    + rewrite (do_import_submissions_Raise _ _ _ t e); [by intros ?%elem_of_nil|].
      right. by exists current.
  - rewrite (do_import_submissions_Raise _ _ _ t e); [by intros ?%elem_of_nil|].
    by left.
Qed.

(** The fields of the [i]-th record of the list stand in the data under
    their names followed by [i + 1], provided no field name ends in a
    digit. *)
Lemma set_hosts_data_lookup a (new : collection) (i : nat) r key v :
  (∀ r' key', r' ∈ values new → is_Some (r' !! key') →
              ends_in_digit key' = false) →
  values new !! i = Some r → r !! key = Some v →
  set_hosts_data a new !! (key +:+ pretty (S i)) = Some v.
Proof.
  intros Hplain Hi Hkey. unfold set_hosts_data.
  apply (fill_data_lookup 1 (values new) _ i r key v); [done..|].
  intros j r' key' Hj Hkey' Hij [_ Heq]%numbered_inj.
  - lia.
  - apply (Hplain r' key'); [by eapply list_elem_of_lookup_2|done].
  - apply (Hplain r key); [by eapply list_elem_of_lookup_2|by eexists].
Qed.

(** C3, as the code has it: the request of a write call enumerates every
    record of the desired set, the records numbered from 1 in the order
    in which they first occur in the desired-state document; no sort is
    applied.  The fields of the record numbered [i + 1] stand under
    their names followed by that number. *)
Theorem payload_enumerates_desired net a config request :
  Post request ∈ submissions (do_import net a config) →
  (∀ r key, r ∈ input_file a → is_Some (r !! key) →
            ends_in_digit key = false) →
  ∃ new,
    get_new a = Ok new ∧ values new = nub (input_file a) ∧
    (∀ r, r ∈ input_file a → r ∈ values new) ∧
    request !! "Command" = Some set_hosts ∧
    ∀ (i : nat) r key v,
      values new !! i = Some r → r !! key = Some v →
      request !! (key +:+ pretty (S i)) = Some v.
Proof.
  intros (c & new & Hc & Hnew & ->)%do_import_submitted Hplain.
  exists new. pose proof (get_new_values _ _ Hnew) as Hvalues.
  split_and!; [done..| | |].
  - intros r Hr. rewrite Hvalues. by apply nub_elem_of.
  - pose proof (is_submission_set_hosts c a new) as Hs. simpl in Hs.
    by apply bool_decide_eq_true in Hs.
  - intros i r key v Hi Hkey. rewrite sign_lookup_numbered.
    apply (set_hosts_data_lookup a new i r key v); [|done..].
    intros r' key'. rewrite Hvalues, nub_elem_of. apply Hplain.
Qed.

Lemma payload_enumerates_desired_witness :
  let a := Fixture.import false [Fixture.rec_www'; Fixture.rec_mail] in
  let request := sign Fixture.cred
    (set_hosts_data a [(Fixture.id_www', Fixture.rec_www');
                       (Fixture.id_mail, Fixture.rec_mail)]) in
  Post request ∈ submissions (do_import Fixture.net_www a Fixture.config) ∧
  (∀ r key, r ∈ input_file a → is_Some (r !! key) →
            ends_in_digit key = false) ∧
  ∃ new,
    get_new a = Ok new ∧ values new = nub (input_file a) ∧
    (∀ r, r ∈ input_file a → r ∈ values new) ∧
    request !! "Command" = Some set_hosts ∧
    ∀ (i : nat) r key v,
      values new !! i = Some r → r !! key = Some v →
      request !! (key +:+ pretty (S i)) = Some v.
Proof.
  intros a request.
  assert (Post request
          ∈ submissions (do_import Fixture.net_www a Fixture.config)) as H1.
  { assert (submissions (do_import Fixture.net_www a Fixture.config)
            = [Post request]) as -> by reflexivity.
    apply list_elem_of_singleton. reflexivity. }
  assert (∀ r key, r ∈ input_file a → is_Some (r !! key) →
            ends_in_digit key = false) as H2.
  { intros r key Hr [v Hv]. simpl in Hr.
    assert (key ∈ ["HostName"; "RecordType"; "Address"]) as Hkey.
    { repeat (apply elem_of_cons in Hr as [->|Hr];
        [apply (elem_of_dom_2 (D := gset string)) in Hv;
         revert Hv; generalize key; apply (bool_decide_unpack _); vm_compute; exact I|]).
      destruct (not_elem_of_nil _ Hr). }
    repeat (apply elem_of_cons in Hkey as [->|Hkey]; [reflexivity|]).
    destruct (not_elem_of_nil _ Hkey). }
  split; [exact H1|]. split; [exact H2|].
  exact (payload_enumerates_desired Fixture.net_www a Fixture.config request
           H1 H2).
Defined.

(** Against the specification, on a document whose records are not written in the
    order of their identities: the provider holds [www -> 1.2.3.4], the
    document declares [www -> 5.6.7.8] and then [mail]; the run submits
    the request with [www] as record 1 and [mail] as record 2, while the
    identity of [mail] is below that of [www] and sorting would put it
    first. *)
Lemma payload_in_document_order :
  let a := Fixture.import false [Fixture.rec_www'; Fixture.rec_mail] in
  ∃ request new,
    submissions (do_import Fixture.net_www a Fixture.config) = [Post request] ∧
    get_new a = Ok new ∧
    values new = [Fixture.rec_www'; Fixture.rec_mail] ∧
    request !! "HostName1" = Some (VStr "www") ∧
    request !! "Address1" = Some (VStr "5.6.7.8") ∧
    request !! "HostName2" = Some (VStr "mail") ∧
    identity_lt Fixture.id_mail Fixture.id_www' = Ok true ∧
    sorted identity_lt dict_hash (values new)
    = Ok [Fixture.rec_mail; Fixture.rec_www'].
Proof.
  intros a.
  exists (sign Fixture.cred
    (set_hosts_data a [(Fixture.id_www', Fixture.rec_www');
                       (Fixture.id_mail, Fixture.rec_mail)])),
    [(Fixture.id_www', Fixture.rec_www'); (Fixture.id_mail, Fixture.rec_mail)].
  split_and!; reflexivity.
Qed.

(** * Further properties of the code *)

(** ** Identities and loading *)

(** X1: [dict_hash] separates records: two records that both have a
    host name and a record type get the same identity only if they are
    the same dict, whatever the order of their attributes. *)
Theorem identity_determines_record (r1 r2 : record) :
  is_Some (r1 !! "HostName") → is_Some (r1 !! "RecordType") →
  (∃ k, dict_hash r1 = Ok k) ∧ (dict_hash r1 = dict_hash r2 ↔ r1 = r2).
Proof.
  intros Hn Ht. destruct (dict_hash_is_Ok r1 Hn Ht) as [k Hk].
  split; [by exists k|]. split; [|by intros ->].
  rewrite Hk. intros Hk2. by apply (dict_hash_inj _ _ k).
Qed.

Lemma identity_determines_record_witness :
  is_Some (Fixture.rec_www !! "HostName") ∧
  is_Some (Fixture.rec_www !! "RecordType") ∧
  (dict_hash Fixture.rec_www = dict_hash Fixture.rec_www'
   ↔ Fixture.rec_www = Fixture.rec_www').
Proof.
  assert (is_Some (Fixture.rec_www !! "HostName")) as H1 by (by eexists).
  assert (is_Some (Fixture.rec_www !! "RecordType")) as H2 by (by eexists).
  split; [exact H1|]. split; [exact H2|].
  exact (proj2 (identity_determines_record Fixture.rec_www Fixture.rec_www'
                  H1 H2)).
Defined.

Lemma dict_hash_Raise (r : record) e :
  dict_hash r = Raise e →
  (r !! "HostName" = None ∧ e = KeyError "HostName") ∨
  (is_Some (r !! "HostName") ∧ r !! "RecordType" = None ∧
   e = KeyError "RecordType").
Proof.
  unfold dict_hash, pop, getitem.
  destruct (r !! "HostName") as [n|] eqn:Hn; simpl.
  - rewrite lookup_delete_ne by done.
    destruct (r !! "RecordType") as [t|] eqn:Ht; simpl; [done|].
    intros [= <-]. right. by split; [eexists|].
  - intros [= <-]. by left.
Qed.

Lemma collect_first_Raise good (r : record) rest acc e :
  Forall (λ g, ∃ k, dict_hash g = Ok k) good → dict_hash r = Raise e →
  collect (good ++ r :: rest) acc = Raise e.
Proof.
  intros Hgood Hr. revert acc.
  induction Hgood as [|g good [k Hk] _ IH]; intros acc; simpl.
  - by rewrite Hr.
  - rewrite Hk. simpl. apply IH.
Qed.

(** A list splits at its first element outside a decidable [P]. *)
Lemma split_first_not {A} (P : A → Prop) `{!∀ x, Decision (P x)} (l : list A) :
  Forall P l ∨ ∃ good x rest, l = good ++ x :: rest ∧ Forall P good ∧ ¬ P x.
Proof.
  induction l as [|y l IH]; [by left|].
  destruct (decide (P y)) as [Hy|Hy].
  - destruct IH as [Hl|(good & x & rest & -> & Hgood & Hx)].
    + left. by constructor.
    + right. exists (y :: good), x, rest. split_and!; [done|by constructor|done].
  - right. exists [], y, l. split_and!; [done|constructor|done].
Qed.

(** X2: loading the desired-state document fails exactly when one of its
    records lacks the host name or the record type; the error is the
    [KeyError] of the first such record ([HostName] is read first, so a
    record lacking both is reported for [HostName]). *)
Theorem load_fails_on_missing_field (a : args) e :
  get_new a = Raise e ↔
  ∃ good r rest,
    input_file a = good ++ r :: rest ∧
    Forall (λ g, is_Some (g !! "HostName") ∧ is_Some (g !! "RecordType"))
      good ∧
    ((r !! "HostName" = None ∧ e = KeyError "HostName") ∨
     (is_Some (r !! "HostName") ∧ r !! "RecordType" = None ∧
      e = KeyError "RecordType")).
Proof.
  assert (∀ good : list record,
    Forall (λ g, is_Some (g !! "HostName") ∧ is_Some (g !! "RecordType")) good →
    Forall (λ g, ∃ k, dict_hash g = Ok k) good) as Hgood.
  { intros good Hg. eapply Forall_impl; [exact Hg|].
    intros g [??]. by apply dict_hash_is_Ok. }
  unfold get_new. split.
  - intros He.
    destruct (split_first_not
      (λ g : record, is_Some (g !! "HostName") ∧ is_Some (g !! "RecordType"))
      (input_file a)) as [Hall|(good & r & rest & Hdoc & Hg & Hr)].
    + destruct (decorate_total (input_file a)) as [l Hl].
      { intros r Hr. apply (proj1 (Forall_forall _ _) (Hgood _ Hall) r Hr). }
      by rewrite (collect_nil _ _ Hl) in He.
    + exists good, r, rest. split_and!; [done..|].
      destruct (dict_hash r) as [k|e'] eqn:Hk.
      * destruct Hr. apply dict_hash_Ok_inv in Hk as (Hn & Ht & _).
        by split; eexists.
      * rewrite Hdoc, (collect_first_Raise _ _ _ _ e' (Hgood _ Hg) Hk) in He.
        injection He as <-. by apply dict_hash_Raise.
  - intros (good & r & rest & -> & Hg & [[Hn ->]|([n Hn] & Ht & ->)]).
    + apply collect_first_Raise; [by apply Hgood|].
      unfold dict_hash, pop, getitem. by rewrite Hn.
    + apply collect_first_Raise; [by apply Hgood|].
      unfold dict_hash, pop, getitem. rewrite Hn. simpl.
      by rewrite lookup_delete_ne, Ht by done.
Qed.

(** ** Requests *)

Lemma first_missing_None {V} names (d : gmap string V) :
  first_missing names d = None ↔ ∀ k, k ∈ names → is_Some (d !! k).
Proof.
  unfold first_missing. rewrite head_None. split.
  - intros Hnil k Hk. destruct (d !! k) eqn:Hd; [by eexists|].
    by destruct (filter_nil_not_elem_of _ _ k Hnil Hd).
  - intros Hall. apply filter_none. intros k Hk Hd.
    destruct (Hall k Hk) as [v Hv]. congruence.
Qed.

Lemma credentials_first_missing (config : record) :
  match credentials config with
  | Ok _ => first_missing credential_names config = None
  | Raise e =>
      ∃ k, first_missing credential_names config = Some k ∧ e = KeyError k
  end.
Proof.
  unfold first_missing, credential_names, credentials, getitem.
  rewrite !filter_cons, filter_nil.
  destruct (config !! "ApiUser") as [u|] eqn:Hu; [|by eexists].
  destruct (config !! "UserName") as [n|] eqn:Hn; [|by eexists].
  destruct (config !! "ApiKey") as [key|] eqn:Hkey; [|by eexists].
  destruct (config !! "ClientIP") as [ip|] eqn:Hip; [|by eexists].
  done.
Qed.

(** X3: a request needs the four credentials of the configuration: when
    one is missing, [make_namecheap_request] raises the [KeyError] of
    the first missing one (in the order ApiUser, UserName, ApiKey,
    ClientIP) and calls nothing; otherwise it makes exactly one call,
    whose request holds the credentials under their names (over a field
    of the data with such a name) and every other field of the data
    unchanged, and it returns or raises what the provider answers. *)
Theorem request_needs_credentials net (config data : record) :
  match first_missing credential_names config with
  | Some k => make_namecheap_request net config data = ([], Raise (KeyError k))
  | None =>
      ∃ request,
        make_namecheap_request net config data = ([Post request], net request) ∧
        (∀ k, k ∈ credential_names → request !! k = config !! k) ∧
        (∀ k, k ∉ credential_names → request !! k = data !! k)
  end.
Proof.
  rewrite make_namecheap_request_run.
  unfold first_missing, credential_names, credentials, getitem.
  rewrite !filter_cons, filter_nil.
  destruct (config !! "ApiUser") as [u|] eqn:Hu; [|done].
  destruct (config !! "UserName") as [n|] eqn:Hn; [|done].
  destruct (config !! "ApiKey") as [key|] eqn:Hkey; [|done].
  destruct (config !! "ClientIP") as [ip|] eqn:Hip; [|done].
  simpl. eexists. split; [done|]. split.
  - intros k Hk.
    repeat (apply elem_of_cons in Hk as [->|Hk];
      [by rewrite ?lookup_insert_ne, lookup_insert_eq by done|]).
    destruct (not_elem_of_nil _ Hk).
  - intros k Hk. by apply (sign_lookup (u, n, key, ip)).
Qed.

(** ** Fetching *)

Lemma clean_records_Forall2 hosts records :
  clean_records (dict_of_attrib <$> hosts) = Ok records ↔
  Forall2 (λ h r, clean_record (dict_of_attrib h) = Ok r) hosts records.
Proof.
  revert records. induction hosts as [|h hosts IH]; intros records; csimpl.
  - split.
    + intros [= <-]. constructor.
    + by intros ->%Forall2_nil_inv_l.
  - split.
    + destruct (clean_record (dict_of_attrib h)) as [r|] eqn:Hr; [|done]. simpl.
      destruct (clean_records (dict_of_attrib <$> hosts)) as [rs|]; [|done].
      simpl. intros [= <-]. constructor; [done|]. by apply IH.
    + intros (r & rs & Hr & Hrs & ->)%Forall2_cons_inv_l.
      rewrite Hr. simpl. apply IH in Hrs. by rewrite Hrs.
Qed.

Lemma clean_records_first_Raise good (h : host) rest e :
  Forall (λ g, ∃ r, clean_record (dict_of_attrib g) = Ok r) good →
  clean_record (dict_of_attrib h) = Raise e →
  clean_records (dict_of_attrib <$> good ++ h :: rest) = Raise e.
Proof.
  intros Hgood Hh. induction Hgood as [|g good [r Hr] _ IH]; csimpl.
  - by rewrite Hh.
  - by rewrite Hr, IH.
Qed.

Lemma get_records_Ok_inv net config sld tld t records :
  get_records net config sld tld = (t, Ok records) →
  ∃ c hosts,
    credentials config = Ok c ∧
    t = [Post (sign c (<["TLD" := VStr tld]> (<["SLD" := VStr sld]>
           (<["Command" := VStr "namecheap.domains.dns.getHosts"]> ∅))))] ∧
    net (sign c (<["TLD" := VStr tld]> (<["SLD" := VStr sld]>
           (<["Command" := VStr "namecheap.domains.dns.getHosts"]> ∅))))
    = Ok hosts ∧
    clean_records (dict_of_attrib <$> hosts) = Ok records.
Proof.
  rewrite get_records_run. simpl.
  destruct (credentials config) as [c|]; [|done]. intros [= <- Hres].
  destruct (net _) as [hosts|] eqn:Hnet; [|done]. by exists c, hosts.
Qed.

(** The shape of the record [clean_record] makes of a host. *)
Lemma cleaned_shape (h : host) (r : record) n ty t :
  h !! "Name" = Some n → h !! "Type" = Some ty → h !! "TTL" = Some t →
  (∀ i, r !! i
        = cleaned_field (dict_of_attrib h) (VStr n) (VStr ty) (VStr t) i) →
  r !! "HostName" = Some (VStr n) ∧
  r !! "RecordType" = Some (VStr ty) ∧
  (∀ k, k ∈ stripped → r !! k = None) ∧
  r !! "MXPref" = (if decide (ty = "MX") then VStr <$> h !! "MXPref" else None) ∧
  r !! "TTL" = (if decide (t = "1800") then None else Some (VStr t)) ∧
  (∀ k, k ∉ ["HostName"; "RecordType"; "MXPref"; "TTL"] ++ stripped →
        r !! k = VStr <$> h !! k).
Proof.
  intros Hn Hty Ht Hi. split_and!.
  - rewrite Hi. unfold cleaned_field. by closed_decide.
  - rewrite Hi. unfold cleaned_field. by closed_decide.
  - intros k Hk. rewrite Hi. unfold cleaned_field, stripped in *.
    repeat (apply elem_of_cons in Hk as [->|Hk]; [by closed_decide|]).
    destruct (not_elem_of_nil _ Hk).
  - rewrite Hi. unfold cleaned_field. closed_decide.
    destruct (decide (ty = "MX")) as [->|Hmx].
    + rewrite decide_True by done. apply lookup_fmap.
    + rewrite decide_False; [done|]. congruence.
  - rewrite Hi. unfold cleaned_field. closed_decide.
    destruct (decide (t = "1800")) as [->|Httl].
    + by rewrite decide_True.
    + rewrite decide_False by congruence.
      unfold dict_of_attrib. by rewrite lookup_fmap, Ht.
  - intros k Hk. rewrite Hi. unfold cleaned_field.
    apply not_elem_of_app in Hk as [Hk Hs].
    rewrite !not_elem_of_cons in Hk. destruct Hk as (? & ? & ? & ? & _).
    rewrite !decide_False by done. apply lookup_fmap.
Qed.

(** X4: the records [get_records] returns are canonical.  They
    correspond one to one, in order, to the hosts of the provider's
    answer; each has the host's name and type under [HostName] and
    [RecordType], none of the provider's bookkeeping attributes, its
    [MXPref] only if its type is MX, its [TTL] only if it is not
    ["1800"], and every other attribute of the host unchanged. *)
Theorem fetched_records_are_canonical net config sld tld t records :
  get_records net config sld tld = (t, Ok records) →
  ∃ request hosts,
    t = [Post request] ∧ net request = Ok hosts ∧
    Forall2 (λ (h : host) (r : record),
      ∃ n ty ttl,
        h !! "Name" = Some n ∧ h !! "Type" = Some ty ∧ h !! "TTL" = Some ttl ∧
        r !! "HostName" = Some (VStr n) ∧
        r !! "RecordType" = Some (VStr ty) ∧
        (∀ k, k ∈ stripped → r !! k = None) ∧
        r !! "MXPref"
        = (if decide (ty = "MX") then VStr <$> h !! "MXPref" else None) ∧
        r !! "TTL" = (if decide (ttl = "1800") then None else Some (VStr ttl)) ∧
        (∀ k, k ∉ ["HostName"; "RecordType"; "MXPref"; "TTL"] ++ stripped →
              r !! k = VStr <$> h !! k))
      hosts records.
Proof.
  intros (c & hosts & _ & -> & Hnet & Hclean)%get_records_Ok_inv.
  eexists _, hosts. split_and!; [done..|].
  apply clean_records_Forall2 in Hclean.
  eapply Forall2_impl; [exact Hclean|]. intros h r Hr. simpl in Hr.
  apply clean_record_Ok_inv in Hr as (n & ty & ttl & Hn & Hty & Ht & Hi).
  exists n, ty, ttl. split_and!; [done..| | | | | |];
    by apply (cleaned_shape h r n ty ttl).
Qed.

Lemma fetched_records_are_canonical_witness :
  let a := Fixture.import false [] in
  let t := [Post (sign Fixture.cred (get_hosts_data a))] in
  get_records Fixture2.net_mx_www Fixture.config (sld a) (tld a)
  = (t, Ok [Fixture.rec_www;
            Fixture2.rec_mx]) ∧
  ∃ request hosts,
    t = [Post request] ∧ Fixture2.net_mx_www request = Ok hosts ∧
    length hosts = 2%nat.
Proof.
  intros a t.
  assert (get_records Fixture2.net_mx_www Fixture.config (sld a) (tld a)
    = (t, Ok [Fixture.rec_www;
              Fixture2.rec_mx]))
    as H1 by reflexivity.
  split; [exact H1|].
  destruct (fetched_records_are_canonical _ _ _ _ _ _ H1)
    as (request & hosts & Ht & Hnet & Hall).
  exists request, hosts. split; [exact Ht|]. split; [exact Hnet|].
  apply Forall2_length in Hall. exact Hall.
Defined.

(** X5: the fetch fails as a whole on the first host that lacks one of
    the attributes [Name], [Type], [TTL]: [get_records] raises the
    [KeyError] of the first of the three that this host lacks, after the
    one call to the provider, whatever the other hosts are. *)
Theorem fetch_fails_on_incomplete_host net config sld tld c good h rest k :
  credentials config = Ok c →
  net (sign c (<["TLD" := VStr tld]> (<["SLD" := VStr sld]>
         (<["Command" := VStr "namecheap.domains.dns.getHosts"]> ∅))))
  = Ok (good ++ h :: rest) →
  Forall (λ g : host, first_missing required_attributes g = None) good →
  first_missing required_attributes h = Some k →
  get_records net config sld tld
  = ([Post (sign c (<["TLD" := VStr tld]> (<["SLD" := VStr sld]>
        (<["Command" := VStr "namecheap.domains.dns.getHosts"]> ∅))))],
     Raise (KeyError k)).
Proof.
  intros Hc Hnet Hgood Hh. rewrite get_records_run, Hc. simpl.
  rewrite Hnet. simpl. f_equal.
  apply clean_records_first_Raise.
  - eapply Forall_impl; [exact Hgood|]. intros g Hg.
    pose proof (proj1 (first_missing_None _ _) Hg) as Hall.
    destruct (Hall "Name") as [n Hn]; [by_compute|].
    destruct (Hall "Type") as [ty Hty]; [by_compute|].
    destruct (Hall "TTL") as [t Ht]; [by_compute|].
    destruct (clean_host g n ty t Hn Hty Ht) as (r & Hr & _). by exists r.
  - pose proof (clean_record_spec (dict_of_attrib h)) as Hs.
    unfold dict_of_attrib in Hs at 1 2 3. rewrite !lookup_fmap in Hs.
    unfold first_missing, required_attributes in Hh.
    rewrite !filter_cons, filter_nil in Hh.
    destruct (h !! "Name"); simpl in *; [|by injection Hh as <-].
    destruct (h !! "Type"); simpl in *; [|by injection Hh as <-].
    destruct (h !! "TTL"); simpl in *; [done|by injection Hh as <-].
Qed.

Lemma fetch_fails_on_incomplete_host_witness :
  let net : provider :=
    λ _, Ok [Fixture.host_mx; delete "TTL" Fixture.host_www; ∅] in
  let data : record :=
    <["TLD" := VStr "com"]> (<["SLD" := VStr "example"]>
      (<["Command" := VStr "namecheap.domains.dns.getHosts"]> ∅)) in
  credentials Fixture.config = Ok Fixture.cred ∧
  net (sign Fixture.cred data)
  = Ok ([Fixture.host_mx] ++ delete "TTL" Fixture.host_www :: [∅]) ∧
  Forall (λ g : host, first_missing required_attributes g = None)
    [Fixture.host_mx] ∧
  first_missing required_attributes (delete "TTL" Fixture.host_www)
  = Some "TTL" ∧
  get_records net Fixture.config "example" "com"
  = ([Post (sign Fixture.cred data)], Raise (KeyError "TTL")).
Proof.
  intros net data.
  assert (credentials Fixture.config = Ok Fixture.cred) as H1 by reflexivity.
  assert (net (sign Fixture.cred data)
          = Ok ([Fixture.host_mx] ++ delete "TTL" Fixture.host_www :: [∅]))
    as H2 by reflexivity.
  assert (Forall (λ g : host, first_missing required_attributes g = None)
            [Fixture.host_mx]) as H3 by (by repeat constructor).
  assert (first_missing required_attributes (delete "TTL" Fixture.host_www)
          = Some "TTL") as H4 by reflexivity.
  split; [exact H1|]. split; [exact H2|]. split; [exact H3|]. split; [exact H4|].
  exact (fetch_fails_on_incomplete_host net Fixture.config "example" "com"
           Fixture.cred [Fixture.host_mx] (delete "TTL" Fixture.host_www) [∅]
           "TTL" H1 H2 H3 H4).
Defined.

(** ** The order of the export *)

Section lexle.
Context {A B : Type} `{!EqDecision A} (leA : relation A) (leB : relation B).
Context `{!PartialOrder leA, !PartialOrder leB}.

Lemma lexle_refl p : lexle leA leB p p.
Proof. right. done. Qed.

Lemma lexle_trans p q r :
  lexle leA leB p q → lexle leA leB q r → lexle leA leB p r.
Proof.
  destruct p as [a1 b1], q as [a2 b2], r as [a3 b3]. unfold lexle. simpl.
  intros [[Hne1 Hle1]|[-> Hb1]] [[Hne2 Hle2]|[-> Hb2]].
  - left. split; [|by etrans]. intros ->.
    apply Hne1. by apply (anti_symm leA).
  - by left.
  - by left.
  - right. split; [done|by etrans].
Qed.

Lemma lexle_antisym p q :
  lexle leA leB p q → lexle leA leB q p → p = q.
Proof.
  destruct p as [a1 b1], q as [a2 b2]. unfold lexle. simpl.
  intros [[Hne1 Hle1]|[-> Hb1]] [[Hne2 Hle2]|[Heq Hb2]].
  - destruct Hne1. by apply (anti_symm leA).
  - by destruct Hne1.
  - by destruct Hne2.
  - f_equal. by apply (anti_symm leB).
Qed.

Lemma lexle_po : PartialOrder (lexle leA leB).
Proof.
  split; [split|].
  - intros p. apply lexle_refl.
  - intros p q r. apply lexle_trans.
  - intros p q. apply lexle_antisym.
Qed.

Lemma lexle_total `{!Total leA, !Total leB} p q :
  lexle leA leB p q ∨ lexle leA leB q p.
Proof.
  destruct p as [a1 b1], q as [a2 b2]. unfold lexle. simpl.
  destruct (decide (a1 = a2)) as [->|Hne].
  - destruct (total leB b1 b2); [left|right]; by right.
  - destruct (total leA a1 a2); [left|right]; left; split; auto.
Qed.
End lexle.

Lemma string_ltb_le a b : String.ltb a b = false ↔ String.le b a.
Proof.
  unfold String.le, String.leb, String.ltb.
  rewrite (String.compare_antisym b a).
  destruct (a ?= b)%string; simpl; split; done.
Qed.

(** On identities of strings, [identity_le] is the lexicographic order
    of type, name and attributes. *)
Lemma identity_le_stringy t1 n1 j1 t2 n2 j2 :
  identity_le (VStr t1, VStr n1, j1) (VStr t2, VStr n2, j2)
  ↔ lexle (lexle String.le String.le) String.le (t1, n1, j1) (t2, n2, j2).
Proof.
  unfold identity_le, identity_lt, lexle. simpl.
  destruct (decide (t2 = t1)) as [->|Ht].
  - rewrite decide_True by done.
    destruct (decide (n2 = n1)) as [->|Hn].
    + rewrite decide_True by done.
      split.
      * intros [= Hj%string_ltb_le]. by right.
      * intros [[[] _]|[_ Hj]]; [done|]. f_equal. by apply string_ltb_le.
    + rewrite decide_False by congruence. simpl. split.
      * intros [= Hj%string_ltb_le]. left. split; [congruence|].
        right. done.
      * intros [[_ [[[] _]|[_ Hj]]]|[[=] _]]; [done| |congruence].
        f_equal. by apply string_ltb_le.
  - rewrite decide_False by congruence. simpl. split.
    + intros [= Hj%string_ltb_le]. left. split; [congruence|].
      left. split; [congruence|done].
    + intros [[_ [[_ Hj]|[? _]]]|[[=] _]]; [|congruence..].
      f_equal. by apply string_ltb_le.
Qed.

Lemma identity_le_trans k1 k2 k3 :
  stringy k1 → stringy k2 → stringy k3 →
  identity_le k1 k2 → identity_le k2 k3 → identity_le k1 k3.
Proof.
  intros (t1 & n1 & j1 & ->) (t2 & n2 & j2 & ->) (t3 & n3 & j3 & ->).
  rewrite !identity_le_stringy.
  pose proof (lexle_po String.le String.le).
  apply lexle_trans; apply _.
Qed.

Lemma identity_le_antisym k1 k2 :
  stringy k1 → stringy k2 →
  identity_le k1 k2 → identity_le k2 k1 → k1 = k2.
Proof.
  intros (t1 & n1 & j1 & ->) (t2 & n2 & j2 & ->).
  rewrite !identity_le_stringy.
  pose proof (lexle_po String.le String.le).
  intros H1 H2.
  by injection (lexle_antisym _ _ _ _ H1 H2) as -> -> ->.
Qed.

Lemma identity_lt_true_le k1 k2 :
  stringy k1 → stringy k2 →
  identity_lt k1 k2 = Ok true → identity_le k1 k2.
Proof.
  intros (t1 & n1 & j1 & ->) (t2 & n2 & j2 & ->) Hlt.
  pose proof (lexle_po String.le String.le).
  destruct (lexle_total (lexle String.le String.le) String.le
              (Total0 := lexle_total String.le String.le)
              (t1, n1, j1) (t2, n2, j2)) as [Hle|Hle];
    apply identity_le_stringy in Hle; [done|].
  unfold identity_le in Hle. congruence.
Qed.
Lemma insert_sorted_le {A} (x : identity * A) l l' :
  stringy x.1 → Forall (λ y, stringy y.1) l →
  StronglySorted (λ y z, identity_le y.1 z.1) l →
  insert_sorted identity_lt x l = Ok l' →
  StronglySorted (λ y z, identity_le y.1 z.1) l'.
Proof.
  intros Hx Hl Hs. revert l' Hl.
  induction Hs as [|y l Hs IH Hy]; intros l' Hl; simpl.
  - intros [= <-]. repeat constructor.
  - apply Forall_cons in Hl as [Hsy Hl].
    destruct (identity_lt y.1 x.1) as [[]|] eqn:Hlt; simpl; [| |done].
    + destruct (insert_sorted_stringy x l Hx Hl) as (l'' & Hl'' & Hp).
      rewrite Hl''. simpl. intros [= <-]. constructor; [by apply IH|].
      rewrite Hp. constructor; [|done]. by apply identity_lt_true_le.
    + intros [= <-]. constructor; [by constructor|].
      constructor; [done|].
      rewrite Forall_forall in Hy, Hl. apply Forall_forall. intros z Hz.
      apply (identity_le_trans _ y.1); auto.
Qed.

Lemma sort_keyed_le {A} (l l' : list (identity * A)) :
  Forall (λ y, stringy y.1) l →
  sort_keyed identity_lt l = Ok l' →
  StronglySorted (λ y z, identity_le y.1 z.1) l'.
Proof.
  intros Hl. revert l'. induction Hl as [|x l Hx Hl IH]; intros l'; simpl.
  - intros [= <-]. constructor.
  - destruct (sort_keyed_stringy l Hl) as (l0 & Hl0 & Hp).
    rewrite Hl0. simpl. apply insert_sorted_le; [done| |by apply IH].
    by rewrite Hp.
Qed.

(** Sorting fetched records puts them in the order of their
    identities. *)
Lemma sorted_fetched_le records doc :
  Forall (λ r, ∃ k, dict_hash r = Ok k ∧ stringy k) records →
  sorted identity_lt dict_hash records = Ok doc →
  StronglySorted record_le doc.
Proof.
  intros Hrs. unfold sorted.
  destruct (decorate dict_hash records) as [l|] eqn:Hl; simpl; [|done].
  apply decorate_spec in Hl as [<- Hwk].
  assert (Forall (λ y : identity * record, stringy y.1) l) as Hsl.
  { unfold well_keyed in Hwk.
    rewrite Forall_fmap in Hrs. rewrite Forall_forall in Hrs, Hwk.
    apply Forall_forall. intros [k r] Hin.
    destruct (Hrs _ Hin) as (k' & Hk' & Hs). simpl in *.
    pose proof (Hwk _ Hin) as Hk. simpl in Hk. congruence. }
  destruct (sort_keyed_stringy l Hsl) as (l' & Hl' & Hp).
  rewrite Hl'. simpl. intros [= <-].
  assert (well_keyed l') as Hwk'.
  { unfold well_keyed. by rewrite Hp. }
  pose proof (sort_keyed_le _ _ Hsl Hl') as Hs.
  unfold well_keyed in Hwk'. clear Hl' Hp. induction Hs as [|[k r] l' Hs IH Hk]; csimpl; constructor.
  - apply IH. by apply Forall_cons in Hwk' as [_ ?].
  - apply Forall_cons in Hwk' as [Hkr Hwk']. simpl in *.
    rewrite Forall_fmap. rewrite Forall_forall in Hk, Hwk'.
    apply Forall_forall. intros [k2 r2] Hin. simpl.
    exists k, k2. split_and!; [done|apply (Hwk' _ Hin)|apply (Hk _ Hin)].
Qed.

Lemma record_le_antisym (r1 r2 : record) :
  (∃ k, dict_hash r1 = Ok k ∧ stringy k) →
  (∃ k, dict_hash r2 = Ok k ∧ stringy k) →
  record_le r1 r2 → record_le r2 r1 → r1 = r2.
Proof.
  intros (k1 & Hk1 & Hs1) (k2 & Hk2 & Hs2).
  intros (k1' & k2' & Ha & Hb & Hle1) (k2'' & k1'' & Hc & Hd & Hle2).
  rewrite Hk1 in Ha, Hd. rewrite Hk2 in Hb, Hc.
  injection Ha as <-. injection Hb as <-.
  injection Hc as <-. injection Hd as <-.
  apply (dict_hash_inj _ _ k1); [done|].
  by rewrite (identity_le_antisym k1 k2).
Qed.

(** The sorted document depends only on which records there are. *)
Lemma sorted_fetched_perm records1 records2 doc :
  Forall (λ r, ∃ k, dict_hash r = Ok k ∧ stringy k) records1 →
  records1 ≡ₚ records2 →
  sorted identity_lt dict_hash records1 = Ok doc →
  sorted identity_lt dict_hash records2 = Ok doc.
Proof.
  intros H1 Hp Hdoc.
  assert (Forall (λ r, ∃ k, dict_hash r = Ok k ∧ stringy k) records2) as H2
    by by rewrite <-Hp.
  destruct (sorted_fetched _ H2) as (doc2 & Hdoc2 & Hp2).
  destruct (sorted_fetched _ H1) as (doc1 & Hdoc1 & Hp1).
  rewrite Hdoc2. f_equal. assert (doc1 = doc) as <- by congruence.
  apply (StronglySorted_unique_strong record_le).
  - intros r2 r1 Hr2 Hr1. rewrite Hp2 in Hr2. rewrite Hp1 in Hr1.
    rewrite Forall_forall in H1, H2. apply record_le_antisym; auto.
  - by apply (sorted_fetched_le records2).
  - by apply (sorted_fetched_le records1).
  - by rewrite Hp2, Hp1.
Qed.

(** ** Export *)

Lemma do_export_run net a config :
  do_export net a config
  = match credentials config with
    | Raise e => ([], Raise e)
    | Ok c =>
        let request := sign c (get_hosts_data a) in
        match hosts ← net request; clean_records (dict_of_attrib <$> hosts) with
        | Raise e => ([Post request], Raise e)
        | Ok records =>
            match sorted identity_lt dict_hash records with
            | Ok doc => ([Post request; Dump doc], Ok tt)
            | Raise e => ([Post request], Raise e)
            end
        end
    end.
Proof.
  unfold do_export. rewrite get_records_run. simpl.
  fold (get_hosts_data a).
  destruct (credentials config) as [c|]; [|done].
  destruct (net _ ≫= _) as [records|]; [|done].
  rewrite bind_Ok. simpl.
  by destruct (sorted identity_lt dict_hash records).
Qed.

Lemma clean_records_perm (hosts1 hosts2 : list host) records1 :
  hosts1 ≡ₚ hosts2 →
  clean_records (dict_of_attrib <$> hosts1) = Ok records1 →
  ∃ records2, clean_records (dict_of_attrib <$> hosts2) = Ok records2 ∧
              records1 ≡ₚ records2.
Proof.
  intros Hp. revert records1.
  induction Hp as [|h l1 l2 Hp IH|h1 h2 l|l1 l2 l3 Hp1 IH1 Hp2 IH2];
    intros records1; csimpl.
  - intros [= <-]. by exists [].
  - destruct (clean_record (dict_of_attrib h)) as [r|]; [|done]. simpl.
    destruct (clean_records (dict_of_attrib <$> l1)) as [rs|]; [|done].
    simpl. intros [= <-]. destruct (IH rs eq_refl) as (rs2 & -> & Hrs).
    simpl. eexists. split; [done|]. by constructor.
  - destruct (clean_record (dict_of_attrib h2)) as [r2|]; [|done]. simpl.
    destruct (clean_record (dict_of_attrib h1)) as [r1|]; [|done]. simpl.
    destruct (clean_records (dict_of_attrib <$> l)) as [rs|]; [|done].
    simpl. intros [= <-]. eexists. split; [done|]. apply Permutation_swap.
  - intros H1. destruct (IH1 _ H1) as (rs2 & H2 & Hrs2).
    destruct (IH2 _ H2) as (rs3 & H3 & Hrs3).
    exists rs3. split; [done|]. by etrans.
Qed.

(** X6: an export never writes to the provider.  Whatever the provider
    answers, the run is one of three: no call at all and the
    [KeyError] of the missing credential; the one read call, then an
    error; the one read call, then the dump of the document, and a
    normal return.  The document is written only when the run
    succeeds. *)
Theorem export_only_reads net a config :
  submissions (do_export net a config) = [] ∧
  ((∃ k, first_missing credential_names config = Some k ∧
         do_export net a config = ([], Raise (KeyError k))) ∨
   (∃ c, credentials config = Ok c ∧
      ((∃ e, do_export net a config
             = ([Post (sign c (get_hosts_data a))], Raise e)) ∨
       (∃ doc, do_export net a config
               = ([Post (sign c (get_hosts_data a)); Dump doc], Ok tt))))).
Proof.
  rewrite do_export_run.
  pose proof (credentials_first_missing config) as Hcred.
  destruct (credentials config) as [c|e] eqn:Hc.
  - clear Hcred. pose proof (is_submission_get_hosts c a) as Hsub.
    simpl. destruct (net _ ≫= _) as [records|e].
    + destruct (sorted identity_lt dict_hash records) as [doc|e].
      * split; [|right; exists c; split; [done|right; by exists doc]].
        unfold submissions. cbn [fst].
        rewrite filter_cons_False by (rewrite Hsub; intros []). reflexivity.
      * split; [|right; exists c; split; [done|left; by exists e]].
        unfold submissions. cbn [fst].
        rewrite filter_cons_False by (rewrite Hsub; intros []). reflexivity.
    + split; [|right; exists c; split; [done|left; by exists e]].
      unfold submissions. cbn [fst].
      rewrite filter_cons_False by (rewrite Hsub; intros []). reflexivity.
  - split; [done|]. left. destruct Hcred as (k & Hk & ->). by exists k.
Qed.
(** X7: a successful export dumps the fetched records sorted by
    identity: the document is a permutation of what [get_records]
    returns, and no record of it stands before one with a smaller
    identity (record type first, then host name, then the serialized
    attributes). *)
Theorem export_is_sorted net a config t :
  do_export net a config = (t, Ok tt) →
  ∃ request records doc,
    get_records net config (sld a) (tld a) = ([Post request], Ok records) ∧
    t = [Post request; Dump doc] ∧
    doc ≡ₚ records ∧ StronglySorted record_le doc.
Proof.
  rewrite do_export_run, get_records_run. fold (get_hosts_data a).
  destruct (credentials config) as [c|]; [|done]. cbn zeta.
  destruct (net _) as [hosts|]; [|done]. simpl.
  destruct (clean_records _) as [records|] eqn:Hrecords; [|done].
  pose proof (clean_records_spec _ _ Hrecords) as Hfetched.
  destruct (sorted_fetched _ Hfetched) as (doc & Hdoc & Hp).
  rewrite Hdoc. intros [= <-]. exists (sign c (get_hosts_data a)), records, doc.
  split_and!; [done..|]. by apply (sorted_fetched_le records).
Qed.

Lemma export_is_sorted_witness :
  ∃ request records,
    get_records Fixture2.net_mx_www Fixture.config "example" "com"
    = ([Post request], Ok records) ∧
    [Fixture.rec_www; Fixture2.rec_mx] ≡ₚ records ∧
    StronglySorted record_le [Fixture.rec_www; Fixture2.rec_mx].
Proof.
  destruct (export_is_sorted Fixture2.net_mx_www (Fixture.import false [])
              Fixture.config
              [Post (sign Fixture.cred (get_hosts_data (Fixture.import false [])));
               Dump [Fixture.rec_www; Fixture2.rec_mx]])
    as (request & records & doc & Hr & [= _ <-] & Hp & Hs).
  - reflexivity.
  - by exists request, records.
Defined.

(** X8: the export does not depend on the order in which the provider
    lists the hosts: if a second provider answers every request with a
    permutation of the first one's hosts, a successful export against
    the first is the same run, with the same document, against the
    second. *)
Theorem export_ignores_listing_order (net1 net2 : provider) a config t :
  (∀ request hosts, net1 request = Ok hosts →
     ∃ hosts', net2 request = Ok hosts' ∧ hosts ≡ₚ hosts') →
  do_export net1 a config = (t, Ok tt) →
  do_export net2 a config = (t, Ok tt).
Proof.
  intros Hnet. rewrite !do_export_run.
  destruct (credentials config) as [c|]; [|done]. cbn zeta.
  destruct (net1 _) as [hosts|] eqn:Hhosts; [|done]. simpl.
  destruct (Hnet _ _ Hhosts) as (hosts' & -> & Hp). simpl.
  destruct (clean_records _) as [records|] eqn:Hrecords; [|done].
  destruct (clean_records_perm _ _ _ Hp Hrecords) as (records' & -> & Hp').
  destruct (sorted _ _ records) as [doc|] eqn:Hdoc; [|done].
  intros [= <-].
  by rewrite (sorted_fetched_perm records records' doc)
    by eauto using clean_records_spec.
Qed.

Lemma export_ignores_listing_order_witness :
  ∃ t, do_export Fixture2.net_www_mx (Fixture.import false []) Fixture.config = (t, Ok tt) ∧
       do_export Fixture2.net_mx_www (Fixture.import false []) Fixture.config = (t, Ok tt).
Proof.
  eexists. split.
  - apply (export_ignores_listing_order Fixture2.net_mx_www Fixture2.net_www_mx).
    + intros request hosts [= <-]. eexists. split; [reflexivity|].
      apply Permutation_swap.
    + reflexivity.
  - reflexivity.
Defined.

(** ** Import: failures and calls *)

Lemma calls_prints {A} (f : A → message) (l : list A) :
  filter is_call (Print ∘ f <$> l) = [].
Proof.
  induction l as [|x l IH]; [done|]. csimpl.
  rewrite filter_cons_False; [done|]. by apply Is_true_false.
Qed.

Lemma get_current_shape net a config :
  match credentials config with
  | Ok c => ∃ res, get_current net a config
                   = ([Post (sign c (get_hosts_data a))], res)
  | Raise e => get_current net a config = ([], Raise e)
  end.
Proof.
  rewrite get_current_run. destruct (credentials config); [|done].
  by eexists.
Qed.

(** X9: every failure of an import is one of four.  A credential is
    missing: [KeyError], nothing was called.  The fetch failed: its
    error, after the read call alone.  The document could not be
    loaded: its error, again after the read call alone, so the provider
    is read before the document is looked at, and nothing is printed.
    The provider refused the write: its error, with the write call as
    the last event.  Comparing the two collections and building the
    request never fail. *)
Theorem import_failures net a config t e :
  do_import net a config = (t, Raise e) →
  (∃ k, first_missing credential_names config = Some k ∧
        e = KeyError k ∧ t = []) ∨
  (∃ c, credentials config = Ok c ∧
     ((t = [Post (sign c (get_hosts_data a))] ∧
       (get_current net a config = (t, Raise e) ∨
        ∃ current, get_current net a config = (t, Ok current) ∧
                   get_new a = Raise e)) ∨
      (∃ current new t',
         get_current net a config
         = ([Post (sign c (get_hosts_data a))], Ok current) ∧
         get_new a = Ok new ∧ dryrun a = false ∧
         net (sign c (set_hosts_data a new)) = Raise e ∧
         t = t' ++ [Post (sign c (set_hosts_data a new))]))).
Proof.
  intros Hrun.
  pose proof (credentials_first_missing config) as Hcred.
  pose proof (get_current_shape net a config) as Hcur.
  destruct (credentials config) as [c|e'] eqn:Hc.
  - right. exists c. split; [done|]. clear Hcred.
    destruct Hcur as [[current|e'] Hcur].
    + destruct (get_new a) as [new|e'] eqn:Hnew.
      * right. exists current, new.
        destruct (do_import_run _ _ _ _ _ _ Hcur Hnew) as (c' & Hc' & Hdo).
        rewrite Hc in Hc'. injection Hc' as <-.
        rewrite Hdo in Hrun. unfold submits in Hrun.
        destruct (dryrun a); [by rewrite andb_false_r in Hrun|].
        destruct (_ && _); [|done]. simpl in Hrun.
        injection Hrun as <- Hnet.
        destruct (net _) as [?|e'] eqn:Hw; [done|]. injection Hnet as ->.
        exists ([Post (sign c (get_hosts_data a))]
                ++ (Print ∘ Removing <$> values (to_remove current new))
                ++ (Print ∘ Adding <$> values (to_add current new))).
        split_and!; [done..|]. by rewrite <-!app_assoc.
      * left. rewrite (do_import_load_Raise _ _ _ _ _ _ Hcur Hnew) in Hrun.
        injection Hrun as <- <-. split; [done|]. right. by exists current.
    + left. rewrite (do_import_fetch_Raise _ _ _ _ _ Hcur) in Hrun.
      injection Hrun as <- <-. split; [done|]. by left.
  - left. destruct Hcred as (k & Hk & ->). exists k.
    rewrite (do_import_fetch_Raise _ _ _ _ _ Hcur) in Hrun.
    by injection Hrun as <- <-.
Qed.

Lemma import_failures_witness :
  ∃ c, credentials Fixture.config = Ok c ∧
       do_import Fixture.net_www
         (Fixture.import false [delete "RecordType" Fixture.rec_www])
         Fixture.config
       = ([Post (sign c (get_hosts_data (Fixture.import false [])))],
          Raise (KeyError "RecordType")).
Proof.
  destruct (import_failures Fixture.net_www
              (Fixture.import false [delete "RecordType" Fixture.rec_www])
              Fixture.config
              [Post (sign Fixture.cred (get_hosts_data (Fixture.import false [])))]
              (KeyError "RecordType"))
    as [(k & _ & _ & [=])|(c & Hc & _)]; [reflexivity|].
  exists c. split; [done|]. by injection Hc as <-.
Defined.

(** X10: an import calls the provider at most twice, and in this order:
    the read, which comes first whenever the credentials are there, and
    at most one write, which is made only outside a dry run, only after
    the document was loaded, and whose request is the one built from
    the loaded collection. *)
Theorem import_call_sequence net a config :
  match credentials config with
  | Raise _ => calls (do_import net a config) = []
  | Ok c =>
      calls (do_import net a config) = [Post (sign c (get_hosts_data a))] ∨
      (dryrun a = false ∧
       ∃ new, get_new a = Ok new ∧
         calls (do_import net a config)
         = [Post (sign c (get_hosts_data a));
            Post (sign c (set_hosts_data a new))])
  end.
Proof.
  pose proof (get_current_shape net a config) as Hcur.
  destruct (credentials config) as [c|e'] eqn:Hc.
  - destruct Hcur as [[current|e'] Hcur].
    + destruct (get_new a) as [new|e'] eqn:Hnew.
      * destruct (do_import_run _ _ _ _ _ _ Hcur Hnew) as (c' & Hc' & Hdo).
        rewrite Hc in Hc'. injection Hc' as <-.
        unfold calls. rewrite Hdo. cbn [fst].
        rewrite !filter_app, !calls_prints. unfold submits.
        destruct (dryrun a); [left; by rewrite andb_false_r|].
        destruct (_ && _); [|by left]. right. split; [done|]. by exists new.
      * left. by rewrite (do_import_load_Raise _ _ _ _ _ _ Hcur Hnew).
    + left. by rewrite (do_import_fetch_Raise _ _ _ _ _ Hcur).
  - by rewrite (do_import_fetch_Raise _ _ _ _ _ Hcur).
Qed.

(** ** The current collection *)

(** X11: the collection [get_current] builds holds every distinct
    fetched record once, in the order of its first appearance: hosts
    that differ only in stripped attributes become one entry.  Its
    identities are unique, made of strings, and each is the identity of
    the record that stands under it. *)
Theorem current_collection net a config t current :
  get_current net a config = (t, Ok current) →
  ∃ records,
    get_records net config (sld a) (tld a) = (t, Ok records) ∧
    values current = nub records ∧
    NoDup (keys current) ∧
    Forall (λ kv, dict_hash kv.2 = Ok kv.1 ∧ stringy kv.1) current.
Proof.
  intros Hcur.
  destruct (get_current_Ok_inv _ _ _ _ _ Hcur)
    as (c & hosts & records & Hc & -> & Hnet & Hrec & Hcol).
  exists records. split.
  { rewrite get_records_run, Hc. fold (get_hosts_data a). cbn zeta.
    rewrite Hnet. simpl. by rewrite Hrec. }
  pose proof (collect_Ok _ _ Hcol) as (Hwk & Hnd & Hvals & _).
  split_and!; [|done|].
  - destruct (decorate dict_hash records) as [l|e] eqn:Hl.
    + rewrite (collect_nil _ _ Hl) in Hcol. injection Hcol as <-.
      apply decorate_spec in Hl as [<- Hwk']. by apply well_keyed_values_nub.
    + by rewrite (collect_Raise _ _ _ Hl) in Hcol.
  - pose proof (clean_records_spec _ _ Hrec) as Hfetched.
    unfold well_keyed in Hwk. rewrite Forall_forall in Hwk.
    rewrite Forall_forall in Hfetched.
    apply Forall_forall. intros [k r] Hin. split; [by apply Hwk|].
    destruct (Hfetched r) as (k' & Hk' & Hs).
    { apply Hvals. unfold values. apply list_elem_of_fmap. by exists (k, r). }
    pose proof (Hwk _ Hin) as Hk. simpl in *. congruence.
Qed.

Lemma current_collection_witness :
  let a := Fixture.import false [] in
  let t := [Post (sign Fixture.cred (get_hosts_data a))] in
  let current := [(Fixture.id_www, Fixture.rec_www);
                  (Fixture2.id_mx, Fixture2.rec_mx)] in
  get_current Fixture2.net_dup a Fixture.config = (t, Ok current) ∧
  ∃ records,
    get_records Fixture2.net_dup Fixture.config (sld a) (tld a)
    = (t, Ok records) ∧
    values current = nub records.
Proof.
  intros a t current.
  assert (get_current Fixture2.net_dup a Fixture.config = (t, Ok current))
    as H1 by reflexivity.
  split; [exact H1|].
  destruct (current_collection _ _ _ _ _ H1) as (records & Hrec & Hval & _).
  exists records. split; [exact Hrec|exact Hval].
Defined.

(** ** What the submitted request holds *)

Lemma set_fields_inv (num : nat) (r data : record) k v :
  set_fields num r data !! k = Some v →
  data !! k = Some v ∨ ∃ key, r !! key = Some v ∧ k = key +:+ pretty num.
Proof.
  unfold set_fields.
  apply (map_fold_weak_ind (λ (acc : record) (m : record),
    acc !! k = Some v →
    data !! k = Some v ∨ ∃ key, m !! key = Some v ∧ k = key +:+ pretty num)).
  - by left.
  - intros i x m acc Hi IH.
    destruct (decide (k = i +:+ pretty num)) as [->|Hne].
    + rewrite lookup_insert_eq. intros [= ->]. right. exists i.
      by rewrite lookup_insert_eq.
    + rewrite lookup_insert_ne by done. intros [?|(key & Hkey & ->)]%IH.
      * by left.
      * right. exists key. split; [|done].
        rewrite lookup_insert_ne; [done|]. intros ->. congruence.
Qed.

Lemma fill_data_inv (num : nat) rs (data : record) k v :
  fill_data num rs data !! k = Some v →
  data !! k = Some v ∨
  ∃ i r key, rs !! i = Some r ∧ r !! key = Some v ∧
             k = key +:+ pretty (num + i)%nat.
Proof.
  revert num data. induction rs as [|r rs IH]; intros num data; simpl.
  - by left.
  - intros [[?|(key & Hkey & ->)]%set_fields_inv
           |(i & r' & key & Hi & Hkey & ->)]%IH.
    + by left.
    + right. exists 0%nat, r, key. by rewrite Nat.add_0_r.
    + right. exists (S i), r', key. by rewrite Nat.add_succ_r.
Qed.

Lemma credentials_Ok_inv (config : record) c k :
  credentials config = Ok c → k ∈ credential_names →
  sign c (∅ : record) !! k = config !! k.
Proof.
  unfold credentials, getitem.
  destruct (config !! "ApiUser") as [u|] eqn:Hu; [|done].
  destruct (config !! "UserName") as [n|] eqn:Hn; [|done].
  destruct (config !! "ApiKey") as [key|] eqn:Hkey; [|done].
  destruct (config !! "ClientIP") as [ip|] eqn:Hip; [|done].
  simpl. intros [= <-] Hk. unfold credential_names in Hk.
  repeat (apply elem_of_cons in Hk as [->|Hk];
    [simpl; rewrite ?lookup_insert_ne by done; rewrite lookup_insert_eq;
     congruence|]).
  destruct (not_elem_of_nil _ Hk).
Qed.

Lemma sign_lookup_credential c (data : record) k :
  k ∈ credential_names → sign c data !! k = sign c (∅ : record) !! k.
Proof.
  destruct c as [[[u n] key] ip]. unfold credential_names. intros Hk.
  repeat (apply elem_of_cons in Hk as [->|Hk];
    [simpl; rewrite ?lookup_insert_ne by done;
     by rewrite !lookup_insert_eq|]).
  destruct (not_elem_of_nil _ Hk).
Qed.

(** X12: the request of a write holds the command, the domain and the
    credentials, and beyond these seven names nothing but numbered
    fields of the loaded records: every other field [k] is
    [key ++ str(i + 1)] for a field [key] of the [i]-th distinct record
    of the document, with that field's value.  No field of a record can
    take the place of the command, the domain or a credential. *)
Theorem submitted_request_fields net a config request :
  Post request ∈ submissions (do_import net a config) →
  request !! "Command" = Some set_hosts ∧
  request !! "SLD" = Some (VStr (sld a)) ∧
  request !! "TLD" = Some (VStr (tld a)) ∧
  (∀ k, k ∈ credential_names → request !! k = config !! k) ∧
  (∀ k v, request !! k = Some v → k ∉ request_names →
     ∃ i r key, nub (input_file a) !! i = Some r ∧ r !! key = Some v ∧
                k = key +:+ pretty (S i)).
Proof.
  intros (c & new & Hc & Hnew & ->)%do_import_submitted.
  apply get_new_values in Hnew as Hvals.
  split_and!.
  - rewrite sign_lookup by not_in_list. unfold set_hosts_data.
    by rewrite fill_data_lookup_plain.
  - rewrite sign_lookup by not_in_list. unfold set_hosts_data.
    by rewrite fill_data_lookup_plain.
  - rewrite sign_lookup by not_in_list. unfold set_hosts_data.
    by rewrite fill_data_lookup_plain.
  - intros k Hk. rewrite sign_lookup_credential by done.
    by apply credentials_Ok_inv.
  - intros k v Hk Hout. rewrite sign_lookup in Hk.
    + unfold set_hosts_data in Hk. rewrite Hvals in Hk.
      apply fill_data_inv in Hk as [Hk|Hk]; [|done].
      destruct Hout. unfold request_names.
      destruct (decide (k = "TLD")) as [->|?]; [by_compute|].
      rewrite lookup_insert_ne in Hk by done.
      destruct (decide (k = "SLD")) as [->|?]; [by_compute|].
      rewrite lookup_insert_ne in Hk by done.
      destruct (decide (k = "Command")) as [->|?]; [by_compute|].
      by rewrite lookup_insert_ne in Hk by done.
    + intros Hin. apply Hout. unfold request_names.
      repeat (apply elem_of_cons in Hin as [->|Hin]; [by_compute|]).
      destruct (not_elem_of_nil _ Hin).
Qed.

Lemma submitted_request_fields_witness :
  let a := Fixture.import false [Fixture.rec_www'; Fixture.rec_mail] in
  let request := sign Fixture.cred (set_hosts_data a
    [(Fixture.id_www', Fixture.rec_www'); (Fixture.id_mail, Fixture.rec_mail)]) in
  Post request ∈ submissions (do_import Fixture.net_www a Fixture.config) ∧
  request !! "Command" = Some set_hosts ∧
  request !! "SLD" = Some (VStr "example") ∧
  request !! "TLD" = Some (VStr "com").
Proof.
  intros a request.
  assert (Post request ∈ submissions (do_import Fixture.net_www a Fixture.config))
    as H1 by (apply list_elem_of_singleton; reflexivity).
  split; [exact H1|].
  destruct (submitted_request_fields _ _ _ _ H1) as (H2 & H3 & H4 & _).
  split; [exact H2|]. split; [exact H3|exact H4].
Defined.

(** ** The order of the document *)










(** ** The domain *)




Lemma split_domain_ex :
  split_domain "example.co.uk" = Some ("example", "co.uk") ∧
  split_domain ".com" = Some ("", "com") ∧
  split_domain "localhost" = None.
Proof. split_and!; reflexivity. Qed.






(** ** When an import writes *)

(** X15: once the current records are fetched and the document is
    loaded, an import makes its write call exactly when the run is not
    a dry run and both differences are inhabited: some current identity
    is absent from the document and some identity of the document is
    absent from the current records.  In every other case, additions
    alone and removals alone included, it makes none. *)
Theorem import_writes_iff_both_differ net a config t current new :
  get_current net a config = (t, Ok current) → get_new a = Ok new →
  (submissions (do_import net a config) ≠ [] ↔
   dryrun a = false ∧
   (∃ k, k ∈ keys current ∧ k ∉ keys new) ∧
   (∃ k, k ∈ keys new ∧ k ∉ keys current)) ∧
  (submissions (do_import net a config) = [] ∨
   ∃ request, submissions (do_import net a config) = [Post request]).
Proof.
  intros Hcur Hnew.
  destruct (do_import_submissions _ _ _ _ _ _ Hcur Hnew) as (c & Hc & ->).
  assert (submits a current new = true ↔
          dryrun a = false ∧
          (∃ k, k ∈ keys current ∧ k ∉ keys new) ∧
          (∃ k, k ∈ keys new ∧ k ∉ keys current)) as Hsub.
  { unfold submits. rewrite !andb_true_iff, !bool_decide_eq_true.
    rewrite negb_true_iff.
    pose proof (diff_nonempty_iff current new) as Hrem.
    pose proof (diff_nonempty_iff new current) as Hadd.
    unfold to_remove in Hrem, Hadd. unfold to_remove, to_add. tauto. }
  destruct (submits a current new).
  - split; [|right; by eexists]. split; [intros _; by apply Hsub|done].
  - split; [|by left]. split; [done|]. intros Hb. by apply Hsub in Hb.
Qed.

Lemma import_writes_iff_both_differ_witness :
  let a := Fixture.import false [Fixture.rec_mail; Fixture.rec_www] in
  let current := [(Fixture.id_www, Fixture.rec_www)] in
  let new := [(Fixture.id_mail, Fixture.rec_mail);
              (Fixture.id_www, Fixture.rec_www)] in
  get_current Fixture.net_www a Fixture.config
  = ([Post (sign Fixture.cred (get_hosts_data a))], Ok current) ∧
  get_new a = Ok new ∧
  (submissions (do_import Fixture.net_www a Fixture.config) ≠ [] ↔
   dryrun a = false ∧
   (∃ k, k ∈ keys current ∧ k ∉ keys new) ∧
   (∃ k, k ∈ keys new ∧ k ∉ keys current)).
Proof.
  intros a current new.
  assert (get_current Fixture.net_www a Fixture.config
          = ([Post (sign Fixture.cred (get_hosts_data a))], Ok current))
    as H1 by reflexivity.
  assert (get_new a = Ok new) as H2 by reflexivity.
  split; [exact H1|]. split; [exact H2|].
  exact (proj1 (import_writes_iff_both_differ _ _ _ _ _ _ H1 H2)).
Defined.

(** X16: a dry run previews the real run: the events of a run are the
    events of the same run with [--dryrun], followed by its write call
    if it makes one; and when the dry run fails, the real run fails in
    the same way. *)
Theorem dry_run_previews net a config :
  let dry := {| sld := sld a; tld := tld a; dryrun := true;
                input_file := input_file a |} in
  (do_import net a config).1
  = (do_import net dry config).1 ++ submissions (do_import net a config) ∧
  (∀ e, (do_import net dry config).2 = Raise e →
        do_import net a config = do_import net dry config).
Proof.
  intros dry.
  assert (get_current net dry config = get_current net a config) as Hcur'
    by by rewrite !get_current_run.
  assert (get_new dry = get_new a) as Hnew' by done.
  destruct (get_current net a config) as [t [current|e]] eqn:Hcur.
  - destruct (get_new a) as [new|e] eqn:Hnew.
    + destruct (do_import_submissions _ _ _ _ _ _ Hcur Hnew) as (c & Hc & ->).
      destruct (do_import_run _ _ _ _ _ _ Hcur Hnew) as (c1 & Hc1 & ->).
      destruct (do_import_run _ _ _ _ _ _ Hcur' Hnew') as (c2 & Hc2 & ->).
      assert (submits dry current new = false) as ->.
      { unfold submits. simpl. by rewrite andb_false_r. }
      rewrite Hc in Hc1. injection Hc1 as <-. cbn [fst snd]. split; [|done].
      by rewrite !app_nil_r, <-!app_assoc.
    + rewrite (do_import_submissions_Raise net a config t e)
        by (right; by exists current).
      rewrite (do_import_load_Raise _ _ _ _ _ _ Hcur Hnew).
      rewrite (do_import_load_Raise _ _ _ _ _ _ Hcur' Hnew').
      by rewrite app_nil_r.
  - rewrite (do_import_submissions_Raise net a config t e) by by left.
    rewrite (do_import_fetch_Raise _ _ _ _ _ Hcur).
    rewrite (do_import_fetch_Raise _ _ _ _ _ Hcur').
    by rewrite app_nil_r.
Qed.
